(** * Rock, Paper, Scissors with a Markov-chain opponent

    A shallow embedding of [markov_chains.py] and the properties of its
    game logic: the outcome rule [check_result], the move index
    [get_index], the transition model [TransitionManager.learn] and the
    round engine of [RockPaperScissorsGame].

    Modelling conventions.
    - Python [int] is [Z]; [%] on a positive modulus is [Z.modulo].
    - The cells of the transition matrix are numpy [float64] values in the
      program.  They are modelled by exact rationals ([Q]): rounding is not
      part of the model, so [0.05] is one twentieth and [1 / 3] one third.
    - A numpy array of fixed shape 3 is a [vec3]; the per-round score arrays
      of length [num_of_games] are lists.  Indexing follows numpy: a
      negative index counts from the end, an index out of range raises
      [IndexError].
    - The tkinter widgets are not modelled.  The two inputs the program
      receives from outside are explicit arguments: the move drawn by
      [np.random.choice] and the answer to the "Play Again" dialog. *)

From Stdlib Require Import ZArith QArith Qabs Lia Lqa String Bool.
From stdpp Require Import base list strings.

Local Open Scope string_scope.
Local Open Scope Z_scope.

(** ** Exceptions and the error monad *)

Inductive exn : Set :=
| IndexError
| ValueError.

Inductive result (A : Type) : Type :=
| Ok (a : A)
| Raise (e : exn).

Arguments Ok {A} a.
Arguments Raise {A} e.

Definition bind {A B : Type} (m : result A) (f : A -> result B) : result B :=
  match m with
  | Ok a => f a
  | Raise e => Raise e
  end.

Notation "'let*' x ':=' m 'in' k" := (bind m (fun x => k))
  (at level 10, x name, m at level 100, k at level 200).

(** ** Outcome rule *)

Definition key_eqb (a b : string * string) : bool :=
  String.eqb (fst a) (fst b) && String.eqb (snd a) (snd b).

(** Lookup in a dict written as a literal: the first entry whose key is
    equal to [key]. *)
Fixpoint dict_get {V : Type} (key : string * string)
    (d : list ((string * string) * V)) : option V :=
  match d with
  | [] => None
  | (k, v) :: d' => if key_eqb key k then Some v else dict_get key d'
  end.

Definition possible_results : list ((string * string) * Z) :=
  [ (("Rock", "Scissors"), 1);
    (("Paper", "Rock"), 1);
    (("Scissors", "Paper"), 1);
    (("Rock", "Paper"), -1);
    (("Paper", "Scissors"), -1);
    (("Scissors", "Rock"), -1) ].

Definition check_result (player_selection ai_selection : string) : Z :=
  match dict_get (player_selection, ai_selection) possible_results with
  | Some result => result
  | None => 0
  end.

Definition get_index (selection : string) : Z :=
  if String.eqb selection "Rock" then 0
  else if String.eqb selection "Paper" then 1
  else if String.eqb selection "Scissors" then 2
  else -1.

Definition legal_move (selection : string) : Prop :=
  selection = "Rock" \/ selection = "Paper" \/ selection = "Scissors".

(** ** numpy arrays *)

(** An array of shape (3,).  [getitem3] and [setitem3] are [a[idx]] and
    [a[idx] = x]: indices -3..-1 count from the end, anything outside
    -3..2 raises [IndexError]. *)
Record vec3 (A : Type) : Type := Vec3 { v0 : A; v1 : A; v2 : A }.

Arguments Vec3 {A} v0 v1 v2.
Arguments v0 {A} v.
Arguments v1 {A} v.
Arguments v2 {A} v.

Definition getitem3 {A : Type} (v : vec3 A) (idx : Z) : result A :=
  match idx with
  | 0 | -3 => Ok (v0 v)
  | 1 | -2 => Ok (v1 v)
  | 2 | -1 => Ok (v2 v)
  | _ => Raise IndexError
  end.

Definition setitem3 {A : Type} (v : vec3 A) (idx : Z) (x : A) : result (vec3 A) :=
  match idx with
  | 0 | -3 => Ok (Vec3 x (v1 v) (v2 v))
  | 1 | -2 => Ok (Vec3 (v0 v) x (v2 v))
  | 2 | -1 => Ok (Vec3 (v0 v) (v1 v) x)
  | _ => Raise IndexError
  end.

(** One-dimensional integer arrays of run-time length. *)
Definition np_index (len : nat) (idx : Z) : result nat :=
  if (0 <=? idx) && (idx <? Z.of_nat len) then Ok (Z.to_nat idx)
  else if (- Z.of_nat len <=? idx) && (idx <? 0) then Ok (Z.to_nat (idx + Z.of_nat len))
  else Raise IndexError.

Definition setitem (a : list Z) (idx : Z) (x : Z) : result (list Z) :=
  let* i := np_index (length a) idx in
  Ok (<[i := x]> a).

(** [np.zeros(n, dtype=int)]; a negative dimension is a [ValueError]. *)
Definition np_zeros (n : Z) : result (list Z) :=
  if n <? 0 then Raise ValueError else Ok (replicate (Z.to_nat n) 0).

Definition np_sum (a : list Z) : Z := foldr Z.add 0 a.

(** ** TransitionManager *)

Definition matrix : Type := vec3 (vec3 Q).

Record TransitionManager : Type := mkTransitionManager {
  transition_matrix : matrix;
  transition_adjustment : Q
}.

Definition TransitionManager_init : TransitionManager :=
  {| transition_matrix :=
       Vec3 (Vec3 (1 / 3) (1 / 3) (1 / 3))
            (Vec3 (1 / 3) (1 / 3) (1 / 3))
            (Vec3 (1 / 3) (1 / 3) (1 / 3));
     transition_adjustment := 0.05 |}%Q.

(** [m[r][c]] *)
Definition cell (m : matrix) (r c : Z) : result Q :=
  let* row := getitem3 m r in
  getitem3 row c.

(** [m[r][c] = x] *)
Definition set_cell (m : matrix) (r c : Z) (x : Q) : result matrix :=
  let* row := getitem3 m r in
  let* row' := setitem3 row c x in
  setitem3 m r row'.

(** [m[r][c] -= d] and [m[r][c] += d] *)
Definition isub_cell (m : matrix) (r c : Z) (d : Q) : result matrix :=
  let* x := cell m r c in
  set_cell m r c (x - d)%Q.

Definition iadd_cell (m : matrix) (r c : Z) (d : Q) : result matrix :=
  let* x := cell m r c in
  set_cell m r c (x + d)%Q.

(** Python's short-circuit [and] on conditions that may raise. *)
Definition and_then (a b : result bool) : result bool :=
  let* x := a in
  if x then b else Ok false.

(** The condition of the [if] in [learn]. *)
Definition learn_guard (self : TransitionManager) (previous_index i j k : Z)
    : result bool :=
  let m := transition_matrix self in
  let adj := transition_adjustment self in
  and_then (let* x := cell m previous_index k in Ok (Qle_bool 0 (x - adj / 2)))
 (and_then (let* x := cell m previous_index j in Ok (Qle_bool 0 (x - adj / 2)))
           (let* x := cell m previous_index i in Ok (Qle_bool (x + adj) 1))).

(** The three assignments in the body of the [if] in [learn]. *)
Definition learn_adjust (self : TransitionManager) (previous_index i j k : Z)
    : result TransitionManager :=
  let adj := transition_adjustment self in
  let* m1 := isub_cell (transition_matrix self) previous_index k (adj / 2) in
  let* m2 := isub_cell m1 previous_index j (adj / 2) in
  let* m3 := iadd_cell m2 previous_index i adj in
  Ok {| transition_matrix := m3; transition_adjustment := adj |}.

Definition learn (self : TransitionManager) (previous_index current_index : Z)
    : result TransitionManager :=
  let i := (current_index + 1) mod 3 in
  let j := (current_index + 2) mod 3 in
  let k := current_index in
  let* go := learn_guard self previous_index i j k in
  if go then learn_adjust self previous_index i j k else Ok self.

(** The distribution the opponent's move is drawn from:
    [transition_matrix[previous_index]]. *)
Definition predict (self : TransitionManager) (previous_index : Z)
    : result (vec3 Q) :=
  getitem3 (transition_matrix self) previous_index.

(** ** GameManager, PointsManager and RockPaperScissorsGame *)

Record GameManager : Type := mkGameManager {
  num_of_games : Z;
  num_round : Z
}.

Record PointsManager : Type := mkPointsManager {
  all_ai_points : list Z;
  all_player_points : list Z
}.

Record RockPaperScissorsGame : Type := mkGame {
  transition_manager : TransitionManager;
  game_manager : GameManager;
  points_manager : PointsManager;
  previous_user_selection : string
}.

Definition states : list string := ["Rock"; "Paper"; "Scissors"].

(** [RockPaperScissorsGame.__init__], without the widgets. *)
Definition RockPaperScissorsGame_init (number_of_games : Z)
    : result RockPaperScissorsGame :=
  let* ai := np_zeros number_of_games in
  let* player := np_zeros number_of_games in
  Ok {| transition_manager := TransitionManager_init;
        game_manager := {| num_of_games := number_of_games; num_round := 0 |};
        points_manager := {| all_ai_points := ai; all_player_points := player |};
        previous_user_selection := "" |}.

(** Field updates, [self.f = x]. *)
Definition with_transition_manager (self : RockPaperScissorsGame)
    (tm : TransitionManager) : RockPaperScissorsGame :=
  {| transition_manager := tm;
     game_manager := game_manager self;
     points_manager := points_manager self;
     previous_user_selection := previous_user_selection self |}.

Definition with_num_round (self : RockPaperScissorsGame) (n : Z)
    : RockPaperScissorsGame :=
  {| transition_manager := transition_manager self;
     game_manager := {| num_of_games := num_of_games (game_manager self);
                        num_round := n |};
     points_manager := points_manager self;
     previous_user_selection := previous_user_selection self |}.

Definition with_points_manager (self : RockPaperScissorsGame)
    (pm : PointsManager) : RockPaperScissorsGame :=
  {| transition_manager := transition_manager self;
     game_manager := game_manager self;
     points_manager := pm;
     previous_user_selection := previous_user_selection self |}.

Definition with_previous_user_selection (self : RockPaperScissorsGame)
    (selection : string) : RockPaperScissorsGame :=
  {| transition_manager := transition_manager self;
     game_manager := game_manager self;
     points_manager := points_manager self;
     previous_user_selection := selection |}.

Definition handle_results (self : RockPaperScissorsGame)
    (current_player_selection ai_selection : string)
    : result RockPaperScissorsGame :=
  let result := check_result current_player_selection ai_selection in
  let n := num_round (game_manager self) in
  let* player := setitem (all_player_points (points_manager self)) n result in
  let* ai := setitem (all_ai_points (points_manager self)) n (- result) in
  Ok (with_points_manager self
        {| all_ai_points := ai; all_player_points := player |}).

Definition reset_game (self : RockPaperScissorsGame)
    : result RockPaperScissorsGame :=
  let self1 := with_num_round self 0 in
  let* ai := np_zeros (num_of_games (game_manager self1)) in
  let* player := np_zeros (num_of_games (game_manager self1)) in
  let self2 := with_points_manager self1
                 {| all_ai_points := ai; all_player_points := player |} in
  Ok (with_previous_user_selection self2 "").

(** [ai_selection] is the value returned by [np.random.choice]. *)
Definition play_round (self : RockPaperScissorsGame)
    (current_player_selection ai_selection : string)
    : result RockPaperScissorsGame :=
  if num_round (game_manager self) =? num_of_games (game_manager self) then
    reset_game self
  else if num_round (game_manager self) =? 0 then
    let self1 := with_previous_user_selection self current_player_selection in
    let* _ := predict (transition_manager self1) 0 in
    let* self2 := handle_results self1 current_player_selection ai_selection in
    Ok (with_num_round self2 (num_round (game_manager self2) + 1))
  else
    let previous_user_selection_index :=
      get_index (previous_user_selection self) in
    let current_user_selection_index := get_index current_player_selection in
    let* _ := predict (transition_manager self) previous_user_selection_index in
    let* tm := learn (transition_manager self)
                 previous_user_selection_index current_user_selection_index in
    let self1 := with_transition_manager self tm in
    let* self2 := handle_results self1 current_player_selection ai_selection in
    let self3 := with_previous_user_selection self2 current_player_selection in
    Ok (with_num_round self3 (num_round (game_manager self3) + 1)).

(** What [handle_end_game] shows: nothing, the "Game Over" box alone (the
    round limit), or the "Game Over" box followed by "Play Again" with the
    answer given. *)
Inductive end_game : Set :=
| NoDialog
| GameOver
| GameOverPlayAgain (play_again : bool).

Definition score_ai (self : RockPaperScissorsGame) : Z :=
  np_sum (all_ai_points (points_manager self)).

Definition score_player (self : RockPaperScissorsGame) : Z :=
  np_sum (all_player_points (points_manager self)).

(** [play_again] is the answer to [messagebox.askyesno]; on [false] the
    window is destroyed and no further move is delivered. *)
Definition handle_end_game (self : RockPaperScissorsGame) (play_again : bool)
    : result (RockPaperScissorsGame * end_game) :=
  let max_score := Z.max (score_ai self) (score_player self) in
  if num_round (game_manager self) =? num_of_games (game_manager self) then
    Ok (self, GameOver)
  else if max_score =? 10 then
    if play_again then
      let* self1 := reset_game self in
      Ok (self1, GameOverPlayAgain true)
    else Ok (self, GameOverPlayAgain false)
  else Ok (self, NoDialog).

(** [update_scores] only redraws labels. *)
Definition play_game (self : RockPaperScissorsGame)
    (current_player_selection ai_selection : string) (play_again : bool)
    : result (RockPaperScissorsGame * end_game) :=
  let* self1 := play_round self current_player_selection ai_selection in
  handle_end_game self1 play_again.

(** One button press: the move, the opponent's draw, the dialog answer. *)
Definition press : Type := string * string * bool.

(** A sequence of button presses, with the dialogs shown after each; the
    presses after the window is destroyed are not delivered. *)
Fixpoint play_games (self : RockPaperScissorsGame) (presses : list press)
    : result (RockPaperScissorsGame * list end_game) :=
  match presses with
  | [] => Ok (self, [])
  | (selection, ai_selection, play_again) :: rest =>
      let* played := play_game self selection ai_selection play_again in
      match snd played with
      | GameOverPlayAgain false => Ok (fst played, [snd played])
      | _ =>
          let* continued := play_games (fst played) rest in
          Ok (fst continued, snd played :: snd continued)
      end
  end.

(** ** Predicates used in the statements *)

Definition move_index (n : Z) : Prop := n = 0 \/ n = 1 \/ n = 2.






(** The transition managers that the initial one becomes under [learn]
    with move indices. *)
Inductive learn_reachable : TransitionManager -> Prop :=
| learn_reachable_init : learn_reachable TransitionManager_init
| learn_reachable_step self p c self' :
    learn_reachable self -> move_index p -> move_index c ->
    learn self p c = Ok self' -> learn_reachable self'.

(** The games that a newly constructed one becomes under button presses,
    as long as the window is not destroyed.  The opponent's move is drawn
    from [states]; the selection is any string, the three buttons being a
    special case. *)
Inductive reachable : RockPaperScissorsGame -> Prop :=
| reachable_init n self :
    RockPaperScissorsGame_init n = Ok self -> reachable self
| reachable_play self selection ai_selection play_again self' shown :
    reachable self ->
    In ai_selection states ->
    play_game self selection ai_selection play_again = Ok (self', shown) ->
    shown <> GameOverPlayAgain false ->
    reachable self'.

(** The condition of [learn] on the values of the three cells it reads in
    row [p], in the order of the source: [k = c], [j = (c + 2) % 3],
    [i = (c + 1) % 3]. *)
Definition guard_holds (adj xi xj xk : Q) : bool :=
  Qle_bool 0 (xk - adj / 2) && Qle_bool 0 (xj - adj / 2) && Qle_bool (xi + adj) 1.



(** The invariant of the game: the round index is within the match, the
    score arrays have [num_of_games] entries, the AI's entries are the
    player's negated, the rounds not yet played hold 0, and no total
    exceeds the number of rounds played. *)
Definition game_invariant (self : RockPaperScissorsGame) : Prop :=
  let n := num_of_games (game_manager self) in
  let r := num_round (game_manager self) in
  let player := all_player_points (points_manager self) in
  0 <= r <= n
  /\ length player = Z.to_nat n
  /\ all_ai_points (points_manager self) = Z.opp <$> player
  /\ (forall i : nat, (Z.to_nat r <= i < Z.to_nat n)%nat -> player !! i = Some 0)
  /\ - r <= np_sum player <= r.

(** The game [RockPaperScissorsGame(n)] constructs when [0 <= n]. *)
Definition fresh_game (n : Z) : RockPaperScissorsGame :=
  {| transition_manager := TransitionManager_init;
     game_manager := {| num_of_games := n; num_round := 0 |};
     points_manager :=
       {| all_ai_points := replicate (Z.to_nat n) 0;
          all_player_points := replicate (Z.to_nat n) 0 |};
     previous_user_selection := "" |}.

(** A one-round match after its only round, Paper against Rock. *)
Definition finished_single_round_game : RockPaperScissorsGame :=
  {| transition_manager := TransitionManager_init;
     game_manager := {| num_of_games := 1; num_round := 1 |};
     points_manager :=
       {| all_ai_points := [-1]; all_player_points := [1] |};
     previous_user_selection := "Paper" |}.

(** ** The rest of the program *)

(** [self.states[idx]], the move at an index of the array that
    [np.random.choice] draws from. *)
Definition states_getitem (idx : Z) : result string :=
  let* i := np_index (length states) idx in
  match states !! i with
  | Some s => Ok s
  | None => Raise IndexError
  end.

(** The selections that the three buttons made by [ButtonManager] pass to
    [play_game]. *)
Definition button_selections : list string := ["Rock"; "Paper"; "Scissors"].

(** The games reached through the buttons: as [reachable], with the
    selection one of the three the buttons submit. *)
Inductive gui_reachable : RockPaperScissorsGame -> Prop :=
| gui_reachable_init n self :
    RockPaperScissorsGame_init n = Ok self -> gui_reachable self
| gui_reachable_play self selection ai_selection play_again self' shown :
    gui_reachable self ->
    In selection button_selections ->
    In ai_selection states ->
    play_game self selection ai_selection play_again = Ok (self', shown) ->
    shown <> GameOverPlayAgain false ->
    gui_reachable self'.

(** [learn] called [n] times in a row with the same pair of indices. *)
Fixpoint learn_repeat (n : nat) (self : TransitionManager) (p c : Z)
    : result TransitionManager :=
  match n with
  | O => Ok self
  | S n' =>
      let* self1 := learn self p c in
      learn_repeat n' self1 p c
  end.

(** [np.count_nonzero(a == x)] *)
Definition np_count_eq (a : list Z) (x : Z) : Z :=
  Z.of_nat (count_occ Z.eq_dec a x).

(** The values that [handle_end_game] formats into its "Game Over"
    message: the verdict (a tie, or the winner and the score shown) and the
    numbers of rounds won, lost and tied by the player. *)
Inductive verdict : Set :=
| Tie
| Wins (winner : string) (score : Z).

Record game_over_message : Set := mkGameOverMessage {
  message_verdict : verdict;
  num_rounds_won : Z;
  num_rounds_lost : Z;
  num_rounds_tied : Z
}.

(** The message of [handle_end_game], [None] when no dialog is shown. *)
Definition handle_end_game_message (self : RockPaperScissorsGame)
    : option game_over_message :=
  let max_score := Z.max (score_ai self) (score_player self) in
  let won := np_count_eq (all_player_points (points_manager self)) 1 in
  let lost := np_count_eq (all_player_points (points_manager self)) (-1) in
  let tied := num_round (game_manager self) - lost - won in
  if num_round (game_manager self) =? num_of_games (game_manager self) then
    if score_ai self =? score_player self then
      Some {| message_verdict := Tie;
              num_rounds_won := won; num_rounds_lost := lost;
              num_rounds_tied := tied |}
    else
      let winner := if score_ai self =? max_score then "AI" else "Player" in
      Some {| message_verdict := Wins winner max_score;
              num_rounds_won := won; num_rounds_lost := lost;
              num_rounds_tied := tied |}
  else if max_score =? 10 then
    let winner := if score_ai self =? max_score then "AI" else "Player" in
    Some {| message_verdict := Wins winner max_score;
            num_rounds_won := won; num_rounds_lost := lost;
            num_rounds_tied := tied |}
  else None.

(** The values [update_scores] writes into the three labels: the round
    shown and the round count, the AI's total and the player's total. *)
Record score_labels : Set := mkScoreLabels {
  round_label : Z * Z;
  ai_score_label : Z;
  player_score_label : Z
}.

Definition update_scores (self : RockPaperScissorsGame) : score_labels :=
  let n_round :=
    if num_round (game_manager self) + 1 <=? 30
    then num_round (game_manager self) + 1 else 30 in
  let n_games := num_of_games (game_manager self) in
  {| round_label := (n_round, n_games);
     ai_score_label := score_ai self;
     player_score_label := score_player self |}.

(** [WindowStyleManager.center_window]: the four numbers of the geometry
    string, width, height and the offsets of the top-left corner. *)
Definition center_window (window_width window_height screen_width screen_height : Z)
    : Z * Z * Z * Z :=
  let x_axis := screen_width / 2 - window_width / 2 in
  let y_axis := screen_height / 2 - window_height / 2 in
  (window_width, window_height, x_axis, y_axis).

(** Every recorded round result is -1, 0 or 1. *)
Definition results_in_range (a : list Z) : Prop :=
  Forall (fun x => -1 <= x <= 1) a.

(** * Properties *)

(** ** The outcome rule *)

Lemma string_cases (s : string) :
  s = "Rock" \/ s = "Paper" \/ s = "Scissors"
  \/ (s <> "Rock" /\ s <> "Paper" /\ s <> "Scissors").
Proof.
  destruct (String.eqb_spec s "Rock"); [tauto|].
  destruct (String.eqb_spec s "Paper"); [tauto|].
  destruct (String.eqb_spec s "Scissors"); tauto.
Qed.

Lemma get_index_illegal (s : string) : ~ legal_move s -> get_index s = -1.
Proof.
  unfold legal_move, get_index. intros H.
  destruct (String.eqb_spec s "Rock"); [tauto|].
  destruct (String.eqb_spec s "Paper"); [tauto|].
  destruct (String.eqb_spec s "Scissors"); tauto.
Qed.

Lemma get_index_range (s : string) : -1 <= get_index s <= 2.
Proof.
  unfold get_index.
  repeat match goal with |- context [String.eqb ?a ?b] => destruct (String.eqb a b) end; lia.
Qed.

Ltac eqb_false :=
  repeat match goal with
  | H : ?s <> ?t |- context [String.eqb ?s ?t] =>
      rewrite (proj2 (String.eqb_neq s t) H)
  end.

Lemma check_result_illegal_l (a b : string) :
  ~ legal_move a -> check_result a b = 0.
Proof.
  unfold legal_move. intros H.
  assert (a <> "Rock" /\ a <> "Paper" /\ a <> "Scissors") as (H1 & H2 & H3) by tauto.
  unfold check_result, possible_results, dict_get, key_eqb; cbn [fst snd].
  eqb_false. reflexivity.
Qed.

Lemma check_result_illegal_r (a b : string) :
  ~ legal_move b -> check_result a b = 0.
Proof.
  unfold legal_move. intros H.
  assert (b <> "Rock" /\ b <> "Paper" /\ b <> "Scissors") as (H1 & H2 & H3) by tauto.
  unfold check_result, possible_results, dict_get, key_eqb; cbn [fst snd].
  eqb_false. rewrite !andb_false_r. reflexivity.
Qed.

Lemma check_result_range (a b : string) : -1 <= check_result a b <= 1.
Proof.
  unfold check_result, possible_results, dict_get.
  repeat match goal with |- context [key_eqb ?a ?b] => destruct (key_eqb a b) end; lia.
Qed.

(** C7: [check_result] is antisymmetric and zero on the diagonal; it is +1
    exactly on (Rock, Scissors), (Paper, Rock), (Scissors, Paper) and -1
    exactly on the reversed pairs.  This holds for all strings. *)
Theorem check_result_antisymmetric (a b : string) :
  check_result a b = - check_result b a
  /\ check_result a a = 0
  /\ (check_result a b = 1 <->
        (a, b) = ("Rock", "Scissors") \/ (a, b) = ("Paper", "Rock")
        \/ (a, b) = ("Scissors", "Paper"))
  /\ (check_result a b = -1 <->
        (a, b) = ("Scissors", "Rock") \/ (a, b) = ("Rock", "Paper")
        \/ (a, b) = ("Paper", "Scissors")).
Proof.
  destruct (string_cases a) as [-> | [-> | [-> | Ha]]];
    destruct (string_cases b) as [-> | [-> | [-> | Hb]]];
    try (assert (~ legal_move a) as Ha' by (unfold legal_move; tauto);
         rewrite !(check_result_illegal_l a), ?(check_result_illegal_r _ a) by exact Ha');
    try (assert (~ legal_move b) as Hb' by (unfold legal_move; tauto);
         rewrite ?(check_result_illegal_l b), ?(check_result_illegal_r _ b) by exact Hb');
    (split; [reflexivity | split; [reflexivity |]]);
    split; (split; [try discriminate | intros [H | [H | H]]; inversion H; try reflexivity; subst; tauto]);
    intros _; tauto.
Qed.

(** ** The transition model *)

#[local] Arguments Qplus : simpl never.
#[local] Arguments Qminus : simpl never.
#[local] Arguments Qmult : simpl never.
#[local] Arguments Qdiv : simpl never.
#[local] Arguments Qopp : simpl never.
#[local] Arguments Qinv : simpl never.
#[local] Arguments Qle_bool : simpl never.

Ltac learn_cases Hp Hc :=
  destruct Hp as [-> | [-> | ->]]; destruct Hc as [-> | [-> | ->]].

Ltac eval_mod3 :=
  repeat match goal with
  | |- context [?a mod 3] =>
      let v := eval vm_compute in (a mod 3) in change (a mod 3) with v
  end.

Ltac learn_eval self :=
  destruct self as [[[? ? ?] [? ? ?] [? ? ?]] ?];
  unfold learn, learn_guard, learn_adjust, and_then, isub_cell, iadd_cell,
    set_cell, cell, predict;
  eval_mod3; cbn.


(** What [learn] does on move indices, cell by cell. *)
Lemma learn_spec (self : TransitionManager) (p c : Z) :
  move_index p -> move_index c ->
  let m := transition_matrix self in
  let adj := transition_adjustment self in
  let i := (c + 1) mod 3 in
  let j := (c + 2) mod 3 in
  exists xi xj xk,
    cell m p i = Ok xi /\ cell m p j = Ok xj /\ cell m p c = Ok xk
    /\ learn_guard self p i j c = Ok (guard_holds adj xi xj xk)
    /\ exists adjusted,
         learn_adjust self p i j c = Ok adjusted
         /\ cell (transition_matrix adjusted) p i = Ok (xi + adj)%Q
         /\ cell (transition_matrix adjusted) p j = Ok (xj - adj / 2)%Q
         /\ cell (transition_matrix adjusted) p c = Ok (xk - adj / 2)%Q
         /\ transition_adjustment adjusted = adj
         /\ (forall r, move_index r -> r <> p ->
               predict adjusted r = predict self r)
         /\ learn self p c
            = Ok (if guard_holds adj xi xj xk then adjusted else self).
Proof.
  intros Hp Hc. learn_cases Hp Hc; learn_eval self; unfold guard_holds;
    do 3 eexists; (split; [reflexivity|]); (split; [reflexivity|]);
    (split; [reflexivity|]);
    (split; [repeat (match goal with
                     | |- context [Qle_bool ?a ?b] => destruct (Qle_bool a b)
                     end; cbn); reflexivity|]);
    eexists; (split; [reflexivity|]); cbn;
    (split; [reflexivity|]); (split; [reflexivity|]); (split; [reflexivity|]);
    (split; [reflexivity|]);
    (split; [intros r [-> | [-> | ->]] Hr; try reflexivity; exfalso; apply Hr; reflexivity|]);
    repeat (match goal with
            | |- context [Qle_bool ?a ?b] => destruct (Qle_bool a b)
            end; cbn); reflexivity.
Qed.

(** C9: on move indices [learn] returns, and it changes at most row [p]:
    the other two rows and [transition_adjustment] are the same after the
    call, whether or not the guard passes. *)
Theorem learn_frame (self : TransitionManager) (p c : Z) :
  move_index p -> move_index c ->
  exists self',
    learn self p c = Ok self'
    /\ transition_adjustment self' = transition_adjustment self
    /\ forall r, move_index r -> r <> p -> predict self' r = predict self r.
Proof.
  intros Hp Hc.
  destruct (learn_spec self p c Hp Hc)
    as (xi & xj & xk & _ & _ & _ & _ & adjusted & _ & _ & _ & _ & Hadj & Hrows & Hlearn).
  rewrite Hlearn. destruct (guard_holds _ _ _ _).
  - exists adjusted. auto.
  - exists self. auto.
Qed.

Lemma learn_frame_witness :
  exists self',
    learn TransitionManager_init 0 0 = Ok self'
    /\ transition_adjustment self' = transition_adjustment TransitionManager_init
    /\ forall r, move_index r -> r <> 0 ->
         predict self' r = predict TransitionManager_init r.
Proof.
  apply (learn_frame TransitionManager_init 0 0); unfold move_index; lia.
Defined.



Ltac split_guards :=
  repeat match goal with
  | |- context [Qle_bool ?a ?b] =>
      let E := fresh "E" in destruct (Qle_bool a b) eqn:E; cbn
  end.







Lemma getitem3_Ok_range {A : Type} (v : vec3 A) (idx : Z) (x : A) :
  getitem3 v idx = Ok x -> -3 <= idx <= 2.
Proof.
  destruct idx as [|q|q]; [lia| |];
    destruct q as [[q|q|]|[q|q|]|]; cbn; try lia; discriminate.
Qed.







(** ** Score arrays *)

Lemma setitem_in_range (a : list Z) (idx x : Z) :
  0 <= idx < Z.of_nat (length a) ->
  setitem a idx x = Ok (<[Z.to_nat idx := x]> a).
Proof.
  intros H. unfold setitem, np_index.
  destruct (0 <=? idx) eqn:E1; [|lia].
  destruct (idx <? Z.of_nat (length a)) eqn:E2; [|lia].
  reflexivity.
Qed.

Lemma np_zeros_nonneg (n : Z) :
  0 <= n -> np_zeros n = Ok (replicate (Z.to_nat n) 0).
Proof.
  intros H. unfold np_zeros. destruct (n <? 0) eqn:E; [lia|reflexivity].
Qed.

Lemma np_sum_replicate (n : nat) : np_sum (replicate n 0) = 0.
Proof. induction n as [|n IH]; cbn; [reflexivity|exact IH]. Qed.

Lemma np_sum_cons (x : Z) (a : list Z) : np_sum (x :: a) = x + np_sum a.
Proof. reflexivity. Qed.

Lemma np_sum_opp (a : list Z) : np_sum (Z.opp <$> a) = - np_sum a.
Proof.
  induction a as [|x a IH]; [reflexivity|].
  rewrite fmap_cons, !np_sum_cons, IH. lia.
Qed.

Lemma np_sum_insert (a : list Z) (i : nat) (x y : Z) :
  a !! i = Some y -> np_sum (<[i := x]> a) = np_sum a - y + x.
Proof.
  revert i. induction a as [|z a IH]; intros i H; [discriminate H|].
  destruct i as [|i].
  - injection H as ->. change (<[0%nat := x]> (y :: a)) with (x :: a).
    rewrite !np_sum_cons. lia.
  - change (<[S i := x]> (z :: a)) with (z :: <[i := x]> a).
    rewrite !np_sum_cons, (IH i H). lia.
Qed.

Lemma opp_replicate_zero (n : nat) : Z.opp <$> replicate n 0 = replicate n 0.
Proof. rewrite fmap_replicate. reflexivity. Qed.

(** ** The round engine *)

Lemma learn_returns (self : TransitionManager) (p c : Z) :
  -3 <= p <= 2 -> -3 <= c <= 2 -> exists self', learn self p c = Ok self'.
Proof.
  intros Hp Hc.
  assert (p = -3 \/ p = -2 \/ p = -1 \/ p = 0 \/ p = 1 \/ p = 2) as Hp' by lia.
  assert (c = -3 \/ c = -2 \/ c = -1 \/ c = 0 \/ c = 1 \/ c = 2) as Hc' by lia.
  destruct Hp' as [-> | [-> | [-> | [-> | [-> | ->]]]]];
    destruct Hc' as [-> | [-> | [-> | [-> | [-> | ->]]]]];
    learn_eval self; split_guards; eexists; reflexivity.
Qed.

Lemma reset_game_spec (self : RockPaperScissorsGame) :
  0 <= num_of_games (game_manager self) ->
  reset_game self
  = Ok {| transition_manager := transition_manager self;
          game_manager :=
            {| num_of_games := num_of_games (game_manager self);
               num_round := 0 |};
          points_manager :=
            {| all_ai_points :=
                 replicate (Z.to_nat (num_of_games (game_manager self))) 0;
               all_player_points :=
                 replicate (Z.to_nat (num_of_games (game_manager self))) 0 |};
          previous_user_selection := "" |}.
Proof.
  intros H. unfold reset_game. cbn. rewrite (np_zeros_nonneg _ H). reflexivity.
Qed.

Lemma reset_game_invariant (self self' : RockPaperScissorsGame) :
  0 <= num_of_games (game_manager self) ->
  reset_game self = Ok self' -> game_invariant self'.
Proof.
  intros H Hreset. rewrite (reset_game_spec self H) in Hreset.
  injection Hreset as <-. unfold game_invariant; cbn.
  split; [lia|]. split; [apply length_replicate|].
  split; [symmetry; apply opp_replicate_zero|].
  split; [|rewrite np_sum_replicate; lia].
  intros i Hi. apply lookup_replicate_2. lia.
Qed.

Lemma init_invariant (n : Z) (self : RockPaperScissorsGame) :
  RockPaperScissorsGame_init n = Ok self -> game_invariant self.
Proof.
  unfold RockPaperScissorsGame_init, np_zeros.
  destruct (n <? 0) eqn:E; [discriminate|]. cbn. intros [= <-].
  unfold game_invariant; cbn.
  split; [lia|]. split; [apply length_replicate|].
  split; [symmetry; apply opp_replicate_zero|].
  split; [|rewrite np_sum_replicate; lia].
  intros i Hi. apply lookup_replicate_2. lia.
Qed.

Lemma handle_results_spec (self : RockPaperScissorsGame) (selection ai : string) :
  0 <= num_round (game_manager self)
     < Z.of_nat (length (all_player_points (points_manager self))) ->
  length (all_ai_points (points_manager self))
  = length (all_player_points (points_manager self)) ->
  handle_results self selection ai
  = Ok (with_points_manager self
          {| all_ai_points :=
               <[Z.to_nat (num_round (game_manager self))
                 := - check_result selection ai]>
                 (all_ai_points (points_manager self));
             all_player_points :=
               <[Z.to_nat (num_round (game_manager self))
                 := check_result selection ai]>
                 (all_player_points (points_manager self)) |}).
Proof.
  intros Hr Hlen. unfold handle_results.
  rewrite (setitem_in_range _ _ _ Hr). cbn [bind].
  rewrite setitem_in_range by (rewrite Hlen; exact Hr). reflexivity.
Qed.

(** A press before the round limit plays a round: the result is written
    at the round index, the move becomes the previous one and the round
    index advances; the transition manager is the old one in round 0 and
    the one [learn] returns in the later rounds. *)
Lemma play_round_plays (self : RockPaperScissorsGame) (selection ai : string) :
  game_invariant self ->
  num_round (game_manager self) <> num_of_games (game_manager self) ->
  exists tm,
    play_round self selection ai
    = Ok {| transition_manager := tm;
            game_manager :=
              {| num_of_games := num_of_games (game_manager self);
                 num_round := num_round (game_manager self) + 1 |};
            points_manager :=
              {| all_ai_points :=
                   <[Z.to_nat (num_round (game_manager self))
                     := - check_result selection ai]>
                     (all_ai_points (points_manager self));
                 all_player_points :=
                   <[Z.to_nat (num_round (game_manager self))
                     := check_result selection ai]>
                     (all_player_points (points_manager self)) |};
            previous_user_selection := selection |}
    /\ (num_round (game_manager self) = 0 -> tm = transition_manager self)
    /\ (num_round (game_manager self) <> 0 ->
        learn (transition_manager self)
          (get_index (previous_user_selection self)) (get_index selection)
        = Ok tm).
Proof.
  intros (Hr & Hlen & Hai & Hzero & Hsum) Hne.
  assert (0 <= num_round (game_manager self)
            < Z.of_nat (length (all_player_points (points_manager self)))) as Hidx
    by lia.
  assert (length (all_ai_points (points_manager self))
          = length (all_player_points (points_manager self))) as Hlen'
    by (rewrite Hai; apply length_fmap).
  unfold play_round.
  destruct (Z.eqb_spec (num_round (game_manager self))
              (num_of_games (game_manager self))) as [|_]; [contradiction|].
  destruct (Z.eqb_spec (num_round (game_manager self)) 0) as [H0|H0].
  - exists (transition_manager self). split; [|split; [reflexivity|contradiction]].
    cbn [predict getitem3 bind].
    rewrite handle_results_spec by assumption. reflexivity.
  - pose proof (get_index_range (previous_user_selection self)) as Hp.
    pose proof (get_index_range selection) as Hc.
    destruct (learn_returns (transition_manager self)
                (get_index (previous_user_selection self)) (get_index selection))
      as [tm Htm]; [lia|lia|].
    exists tm. split; [|split; [contradiction|intros _; exact Htm]].
    rewrite Htm.
    assert (exists row, predict (transition_manager self)
                          (get_index (previous_user_selection self)) = Ok row)
      as [row ->].
    { unfold predict.
      assert (get_index (previous_user_selection self) = -1
              \/ get_index (previous_user_selection self) = 0
              \/ get_index (previous_user_selection self) = 1
              \/ get_index (previous_user_selection self) = 2) as Hcases by lia.
      destruct Hcases as [-> | [-> | [-> | ->]]]; eexists; reflexivity. }
    cbn [bind].
    rewrite handle_results_spec by assumption. reflexivity.
Qed.

Lemma play_round_resets (self : RockPaperScissorsGame) (selection ai : string) :
  num_round (game_manager self) = num_of_games (game_manager self) ->
  play_round self selection ai = reset_game self.
Proof.
  intros H. unfold play_round. rewrite H, Z.eqb_refl. reflexivity.
Qed.

Lemma play_round_invariant (self : RockPaperScissorsGame) (selection ai : string) :
  game_invariant self ->
  exists self1,
    play_round self selection ai = Ok self1
    /\ game_invariant self1
    /\ num_of_games (game_manager self1) = num_of_games (game_manager self).
Proof.
  intros Hinv.
  destruct (Z.eq_dec (num_round (game_manager self))
              (num_of_games (game_manager self))) as [Heq|Hne].
  - rewrite (play_round_resets self selection ai Heq).
    destruct Hinv as (Hr & _).
    assert (0 <= num_of_games (game_manager self)) as Hn by lia.
    rewrite (reset_game_spec self Hn). eexists. split; [reflexivity|].
    split; [|reflexivity].
    eapply reset_game_invariant; [exact Hn|apply reset_game_spec; exact Hn].
  - destruct (play_round_plays self selection ai Hinv Hne) as (tm & -> & _).
    destruct Hinv as (Hr & Hlen & Hai & Hzero & Hsum).
    eexists. split; [reflexivity|]. split; [|reflexivity].
    unfold game_invariant; cbn.
    split; [lia|]. split; [rewrite length_insert; exact Hlen|].
    split; [rewrite Hai, list_fmap_insert; reflexivity|].
    split.
    + intros i Hi. rewrite list_lookup_insert_ne by lia. apply Hzero. lia.
    + rewrite (np_sum_insert _ _ _ 0) by (apply Hzero; lia).
      pose proof (check_result_range selection ai). lia.
Qed.

Lemma handle_end_game_invariant (self : RockPaperScissorsGame) (play_again : bool) :
  game_invariant self ->
  exists self' shown,
    handle_end_game self play_again = Ok (self', shown)
    /\ game_invariant self'
    /\ num_of_games (game_manager self') = num_of_games (game_manager self).
Proof.
  intros Hinv. unfold handle_end_game.
  destruct (num_round (game_manager self) =? num_of_games (game_manager self)).
  { do 2 eexists. split; [reflexivity|]. split; [exact Hinv|reflexivity]. }
  destruct (Z.max (score_ai self) (score_player self) =? 10).
  2: { do 2 eexists. split; [reflexivity|]. split; [exact Hinv|reflexivity]. }
  destruct play_again.
  2: { do 2 eexists. split; [reflexivity|]. split; [exact Hinv|reflexivity]. }
  assert (0 <= num_of_games (game_manager self)) as Hn
    by (destruct Hinv as (Hr & _); lia).
  rewrite (reset_game_spec self Hn). cbn [bind].
  do 2 eexists. split; [reflexivity|]. split; [|reflexivity].
  eapply reset_game_invariant; [exact Hn|apply reset_game_spec; exact Hn].
Qed.

Lemma play_game_invariant (self : RockPaperScissorsGame)
    (selection ai : string) (play_again : bool) :
  game_invariant self ->
  exists self1 self' shown,
    play_round self selection ai = Ok self1
    /\ game_invariant self1
    /\ handle_end_game self1 play_again = Ok (self', shown)
    /\ play_game self selection ai play_again = Ok (self', shown)
    /\ game_invariant self'
    /\ num_of_games (game_manager self') = num_of_games (game_manager self).
Proof.
  intros Hinv.
  destruct (play_round_invariant self selection ai Hinv) as (self1 & H1 & Hinv1 & Hn1).
  destruct (handle_end_game_invariant self1 play_again Hinv1)
    as (self' & shown & H2 & Hinv' & Hn').
  exists self1, self', shown. unfold play_game. rewrite H1. cbn [bind].
  split; [reflexivity|]. split; [exact Hinv1|]. split; [exact H2|].
  split; [exact H2|]. split; [exact Hinv'|]. congruence.
Qed.

Lemma reachable_invariant (self : RockPaperScissorsGame) :
  reachable self -> game_invariant self.
Proof.
  induction 1 as [n self Hinit | self selection ai again self' shown _ IH _ Hplay _].
  - exact (init_invariant n self Hinit).
  - destruct (play_game_invariant self selection ai again IH)
      as (self1 & self2 & shown2 & _ & _ & _ & Hplay2 & Hinv2 & _).
    rewrite Hplay in Hplay2. injection Hplay2 as <- <-. exact Hinv2.
Qed.

Lemma init_fresh_game (n : Z) :
  0 <= n -> RockPaperScissorsGame_init n = Ok (fresh_game n).
Proof.
  intros H. unfold RockPaperScissorsGame_init. rewrite (np_zeros_nonneg n H).
  reflexivity.
Qed.

Lemma reachable_fresh_game (n : Z) : 0 <= n -> reachable (fresh_game n).
Proof. intros H. exact (reachable_init n _ (init_fresh_game n H)). Qed.

Lemma reachable_finished_single_round_game :
  reachable finished_single_round_game.
Proof.
  apply (reachable_play (fresh_game 1) "Paper" "Rock" false _ GameOver).
  - apply reachable_fresh_game. lia.
  - simpl. tauto.
  - reflexivity.
  - discriminate.
Qed.

(** ** Reset *)




(** ** A move after the round limit *)

(** C8: when the round index equals the configured round count, a submitted
    move is not rejected and not played: [play_round] returns what
    [reset_game] returns, with round index 0, all score entries 0, no
    previous move and the transition manager as it was; [play_game] then
    shows no dialog (unless the match has no rounds at all). *)
Theorem play_round_after_finish_resets (self : RockPaperScissorsGame)
    (selection ai : string) (play_again : bool) :
  reachable self ->
  num_round (game_manager self) = num_of_games (game_manager self) ->
  exists self',
    play_round self selection ai = Ok self'
    /\ reset_game self = Ok self'
    /\ num_round (game_manager self') = 0
    /\ all_player_points (points_manager self')
       = replicate (Z.to_nat (num_of_games (game_manager self))) 0
    /\ all_ai_points (points_manager self')
       = replicate (Z.to_nat (num_of_games (game_manager self))) 0
    /\ score_player self' = 0 /\ score_ai self' = 0
    /\ previous_user_selection self' = ""
    /\ transition_manager self' = transition_manager self
    /\ play_game self selection ai play_again
       = Ok (self', if num_of_games (game_manager self) =? 0
                    then GameOver else NoDialog).
Proof.
  intros Hreach Hfin. destruct (reachable_invariant self Hreach) as (Hr & _).
  assert (0 <= num_of_games (game_manager self)) as Hn by lia.
  eexists. unfold play_game.
  rewrite (play_round_resets self selection ai Hfin), (reset_game_spec self Hn).
  split; [reflexivity|]. split; [reflexivity|].
  unfold score_player, score_ai, handle_end_game; cbn.
  rewrite !np_sum_replicate.
  repeat (split; [reflexivity|]).
  change (Z.max 0 0 =? 10) with false. cbv iota.
  destruct (num_of_games (game_manager self)); reflexivity.
Qed.

Lemma play_round_after_finish_resets_witness :
  exists self',
    play_round finished_single_round_game "Scissors" "Rock" = Ok self'
    /\ reset_game finished_single_round_game = Ok self'
    /\ num_round (game_manager self') = 0
    /\ all_player_points (points_manager self')
       = replicate
           (Z.to_nat (num_of_games (game_manager finished_single_round_game))) 0
    /\ all_ai_points (points_manager self')
       = replicate
           (Z.to_nat (num_of_games (game_manager finished_single_round_game))) 0
    /\ score_player self' = 0 /\ score_ai self' = 0
    /\ previous_user_selection self' = ""
    /\ transition_manager self' = transition_manager finished_single_round_game
    /\ play_game finished_single_round_game "Scissors" "Rock" true
       = Ok (self',
             if num_of_games (game_manager finished_single_round_game) =? 0
             then GameOver else NoDialog).
Proof.
  apply (play_round_after_finish_resets finished_single_round_game
           "Scissors" "Rock" true).
  - apply (reachable_play (fresh_game 1) "Paper" "Rock" false _ GameOver).
    + apply (reachable_init 1). reflexivity.
    + simpl. tauto.
    + reflexivity.
    + discriminate.
  - reflexivity.
Defined.

(** ** Writes to the score arrays *)

(** C10: in a reachable game in which [play_round] records a result (the
    round index differs from the round count), the round index is
    non-negative and strictly below the round count, which is the length of
    both score arrays; the two writes of [handle_results] are in bounds and
    it returns, whatever transition manager and previous move the game
    holds at the call. *)
Theorem handle_results_in_bounds (self : RockPaperScissorsGame)
    (selection ai : string) :
  reachable self ->
  num_round (game_manager self) <> num_of_games (game_manager self) ->
  0 <= num_round (game_manager self) < num_of_games (game_manager self)
  /\ length (all_player_points (points_manager self))
     = Z.to_nat (num_of_games (game_manager self))
  /\ length (all_ai_points (points_manager self))
     = Z.to_nat (num_of_games (game_manager self))
  /\ (exists i,
        np_index (length (all_player_points (points_manager self)))
          (num_round (game_manager self)) = Ok i
        /\ np_index (length (all_ai_points (points_manager self)))
             (num_round (game_manager self)) = Ok i
        /\ (i < length (all_player_points (points_manager self)))%nat)
  /\ forall tm previous,
       exists self',
         handle_results
           (with_previous_user_selection (with_transition_manager self tm)
              previous) selection ai
         = Ok self'.
Proof.
  intros Hreach Hne.
  destruct (reachable_invariant self Hreach) as (Hr & Hlen & Hai & _).
  assert (length (all_ai_points (points_manager self))
          = length (all_player_points (points_manager self))) as Hlen'
    by (rewrite Hai; apply length_fmap).
  split; [lia|]. split; [exact Hlen|]. split; [lia|]. split.
  - exists (Z.to_nat (num_round (game_manager self))).
    unfold np_index. rewrite Hlen'.
    destruct (0 <=? num_round (game_manager self)) eqn:E1; [|lia].
    destruct (num_round (game_manager self)
                <? Z.of_nat (length (all_player_points (points_manager self))))
      eqn:E2; [|lia].
    cbn. repeat split. lia.
  - intros tm previous. eexists. apply handle_results_spec; cbn; [lia|exact Hlen'].
Qed.

Lemma handle_results_in_bounds_witness :
  0 <= num_round (game_manager (fresh_game 30))
    < num_of_games (game_manager (fresh_game 30))
  /\ length (all_player_points (points_manager (fresh_game 30)))
     = Z.to_nat (num_of_games (game_manager (fresh_game 30)))
  /\ length (all_ai_points (points_manager (fresh_game 30)))
     = Z.to_nat (num_of_games (game_manager (fresh_game 30)))
  /\ (exists i,
        np_index (length (all_player_points (points_manager (fresh_game 30))))
          (num_round (game_manager (fresh_game 30))) = Ok i
        /\ np_index (length (all_ai_points (points_manager (fresh_game 30))))
             (num_round (game_manager (fresh_game 30))) = Ok i
        /\ (i < length (all_player_points (points_manager (fresh_game 30))))%nat)
  /\ forall tm previous,
       exists self',
         handle_results
           (with_previous_user_selection
              (with_transition_manager (fresh_game 30) tm) previous)
           "Rock" "Paper"
         = Ok self'.
Proof.
  apply (handle_results_in_bounds (fresh_game 30) "Rock" "Paper").
  - apply (reachable_init 30). reflexivity.
  - simpl. lia.
Defined.

(** ** Strings that are not moves *)

Lemma cell_last (m : matrix) (p : Z) : cell m p (-1) = cell m p 2.
Proof. unfold cell. destruct (getitem3 m p); reflexivity. Qed.

(** numpy's negative indexing makes index -1 the column of Scissors. *)
Lemma learn_last (self : TransitionManager) (p : Z) :
  learn self p (-1) = learn self p 2.
Proof.
  unfold learn, learn_guard, learn_adjust, isub_cell. eval_mod3.
  rewrite !cell_last.
  destruct (and_then _ _) as [[|]|]; reflexivity.
Qed.

(** C6 (as the code has it): a string that is not a legal move is not
    rejected.  [get_index] maps it to -1 and [check_result] to 0; submitted
    to a reachable game before the round limit it is played as a round:
    [play_round] returns, the round is recorded as a tie for both sides,
    the totals are as before, the round index advances by one and the
    string becomes the previous selection. *)
Theorem play_round_illegal_move (self : RockPaperScissorsGame)
    (selection ai : string) :
  reachable self -> ~ legal_move selection ->
  num_round (game_manager self) <> num_of_games (game_manager self) ->
  get_index selection = -1
  /\ check_result selection ai = 0
  /\ exists self',
       play_round self selection ai = Ok self'
       /\ num_round (game_manager self') = num_round (game_manager self) + 1
       /\ previous_user_selection self' = selection
       /\ all_player_points (points_manager self')
            !! Z.to_nat (num_round (game_manager self)) = Some 0
       /\ all_ai_points (points_manager self')
            !! Z.to_nat (num_round (game_manager self)) = Some 0
       /\ score_player self' = score_player self
       /\ score_ai self' = score_ai self.
Proof.
  intros Hreach Hillegal Hne.
  pose proof (reachable_invariant self Hreach) as Hinv.
  pose proof (get_index_illegal selection Hillegal) as Hidx.
  pose proof (check_result_illegal_l selection ai Hillegal) as Hres.
  split; [exact Hidx|]. split; [exact Hres|].
  destruct (play_round_plays self selection ai Hinv Hne) as (tm & Hplay & H0 & Hlearn).
  destruct Hinv as (Hr & Hlen & Hai & Hzero & Hsum).
  assert (all_player_points (points_manager self)
            !! Z.to_nat (num_round (game_manager self)) = Some 0) as Hold
    by (apply Hzero; lia).
  eexists. split; [exact Hplay|]. rewrite Hres.
  unfold score_player, score_ai; cbn.
  split; [reflexivity|]. split; [reflexivity|].
  split; [apply list_lookup_insert_eq; lia|].
  split; [apply list_lookup_insert_eq; rewrite Hai, length_fmap; lia|].
  split; [rewrite (np_sum_insert _ _ _ 0 Hold); lia|].
  rewrite (np_sum_insert _ _ _ 0); [lia|].
  rewrite Hai, list_lookup_fmap, Hold. reflexivity.
Qed.

Lemma play_round_illegal_move_witness :
  get_index "Lizard" = -1
  /\ check_result "Lizard" "Rock" = 0
  /\ exists self',
       play_round (fresh_game 30) "Lizard" "Rock" = Ok self'
       /\ num_round (game_manager self')
          = num_round (game_manager (fresh_game 30)) + 1
       /\ previous_user_selection self' = "Lizard"
       /\ all_player_points (points_manager self')
            !! Z.to_nat (num_round (game_manager (fresh_game 30))) = Some 0
       /\ all_ai_points (points_manager self')
            !! Z.to_nat (num_round (game_manager (fresh_game 30))) = Some 0
       /\ score_player self' = score_player (fresh_game 30)
       /\ score_ai self' = score_ai (fresh_game 30).
Proof.
  apply (play_round_illegal_move (fresh_game 30) "Lizard" "Rock").
  - apply (reachable_init 30). reflexivity.
  - unfold legal_move. intros [H | [H | H]]; discriminate H.
  - simpl. lia.
Defined.

(** C6 as claimed fails: "Lizard" is not a legal move, yet submitting it to
    a new 30-round game returns a game that differs from the one before
    (round index 1, previous selection "Lizard"); submitted in the second
    round after Rock, it also moves row 0 of the transition matrix. *)
Lemma play_round_accepts_illegal_move :
  ~ legal_move "Lizard"
  /\ exists self1 self2 self3,
       play_round (fresh_game 30) "Lizard" "Rock" = Ok self1
       /\ self1 <> fresh_game 30
       /\ num_round (game_manager self1) = 1
       /\ previous_user_selection self1 = "Lizard"
       /\ play_round (fresh_game 30) "Rock" "Rock" = Ok self2
       /\ play_round self2 "Lizard" "Rock" = Ok self3
       /\ predict (transition_manager self2) 0
          = Ok (Vec3 (1 / 3) (1 / 3) (1 / 3))%Q
       /\ predict (transition_manager self3) 0
          = Ok (Vec3 (1 / 3 + 0.05) (1 / 3 - 0.05 / 2) (1 / 3 - 0.05 / 2))%Q.
Proof.
  split.
  - unfold legal_move. intros [H | [H | H]]; discriminate H.
  - do 3 eexists. split; [vm_compute; reflexivity|].
    split; [intros H; vm_compute in H; discriminate H|].
    split; [reflexivity|]. split; [reflexivity|].
    split; [vm_compute; reflexivity|].
    split; [vm_compute; reflexivity|].
    split; vm_compute; reflexivity.
Qed.

(** ** The end of a match *)

Lemma invariant_scores (self : RockPaperScissorsGame) :
  game_invariant self ->
  score_ai self = - score_player self
  /\ - num_round (game_manager self) <= score_player self
       <= num_round (game_manager self).
Proof.
  intros (_ & _ & Hai & _ & Hsum). unfold score_ai, score_player.
  rewrite Hai, np_sum_opp. split; [reflexivity|exact Hsum].
Qed.

(** [handle_end_game] shows a dialog exactly at the round limit or when a
    total is 10. *)
Lemma handle_end_game_finishes (self : RockPaperScissorsGame) (play_again : bool) :
  game_invariant self ->
  exists self' shown,
    handle_end_game self play_again = Ok (self', shown)
    /\ (shown <> NoDialog <->
        num_round (game_manager self) = num_of_games (game_manager self)
        \/ score_ai self = 10 \/ score_player self = 10).
Proof.
  intros Hinv. destruct (invariant_scores self Hinv) as [Hopp _].
  destruct Hinv as (Hr & _).
  assert (0 <= num_of_games (game_manager self)) as Hn by lia.
  unfold handle_end_game.
  destruct (Z.eqb_spec (num_round (game_manager self))
              (num_of_games (game_manager self))) as [Heq|Hne].
  { do 2 eexists. split; [reflexivity|]. split; [tauto|discriminate]. }
  destruct (Z.eqb_spec (Z.max (score_ai self) (score_player self)) 10)
    as [Hmax|Hmax].
  - destruct play_again.
    + rewrite (reset_game_spec self Hn). cbn [bind].
      do 2 eexists. split; [reflexivity|]. split; [lia|discriminate].
    + do 2 eexists. split; [reflexivity|]. split; [lia|discriminate].
  - do 2 eexists. split; [reflexivity|]. split; [congruence|lia].
Qed.

(** In a match of at most 10 rounds no total reaches 10 before the round
    limit: the presses up to the limit are all played, and the only dialog
    is the one at the limit. *)
Lemma play_games_short (presses : list press) :
  forall self : RockPaperScissorsGame,
    game_invariant self ->
    num_of_games (game_manager self) <= 10 ->
    num_round (game_manager self) + Z.of_nat (length presses)
      <= num_of_games (game_manager self) ->
    exists self' shown,
      play_games self presses = Ok (self', shown)
      /\ num_round (game_manager self')
         = num_round (game_manager self) + Z.of_nat (length presses)
      /\ length shown = length presses
      /\ forall (t : nat) (d : end_game),
           shown !! t = Some d ->
           d = if num_round (game_manager self) + Z.of_nat t + 1
                   =? num_of_games (game_manager self)
               then GameOver else NoDialog.
Proof.
  induction presses as [|[[selection ai] play_again] rest IH]; intros self Hinv Hten Hlen.
  - exists self, []. cbn. split; [reflexivity|]. split; [lia|].
    split; [reflexivity|]. intros t d H. discriminate H.
  - cbn [length] in Hlen.
    assert (num_round (game_manager self) <> num_of_games (game_manager self))
      as Hne by lia.
    destruct (play_round_invariant self selection ai Hinv) as (self1 & Hplay & Hinv1 & Hn1).
    destruct (play_round_plays self selection ai Hinv Hne) as (tm & Hplay' & _).
    assert (num_round (game_manager self1) = num_round (game_manager self) + 1) as Hr1.
    { rewrite Hplay in Hplay'. injection Hplay' as ->. reflexivity. }
    destruct (invariant_scores self1 Hinv1) as [Hopp Hbound].
    assert (handle_end_game self1 play_again
            = Ok (self1, if num_round (game_manager self) + Z.of_nat 0 + 1
                              =? num_of_games (game_manager self)
                         then GameOver else NoDialog)) as Hend.
    { unfold handle_end_game. rewrite Hn1, Hr1.
      replace (num_round (game_manager self) + Z.of_nat 0 + 1)
        with (num_round (game_manager self) + 1) by lia.
      destruct (Z.eqb_spec (num_round (game_manager self) + 1)
                  (num_of_games (game_manager self))) as [Heq|Hneq];
        [reflexivity|].
      destruct (Z.eqb_spec (Z.max (score_ai self1) (score_player self1)) 10)
        as [Hmax|Hmax]; [lia|reflexivity]. }
    destruct (IH self1 Hinv1) as (self' & later & Hrest & Hr' & Hlen' & Hshown);
      [lia|lia|].
    exists self'.
    exists ((if num_round (game_manager self) + Z.of_nat 0 + 1
                  =? num_of_games (game_manager self)
             then GameOver else NoDialog) :: later).
    split.
    { cbn [play_games]. unfold play_game. rewrite Hplay. cbn [bind].
      rewrite Hend. cbn [bind fst snd]. rewrite Hrest. cbn [bind fst snd].
      destruct (num_round (game_manager self) + Z.of_nat 0 + 1
                  =? num_of_games (game_manager self)); reflexivity. }
    split; [cbn [length]; lia|].
    split; [cbn [length]; lia|].
    intros [|t] d Hd.
    + injection Hd as <-. reflexivity.
    + change ((?x :: later) !! S t) with (later !! t) in Hd.
      rewrite (Hshown t d Hd), Hn1, Hr1.
      replace (num_round (game_manager self) + 1 + Z.of_nat t + 1)
        with (num_round (game_manager self) + Z.of_nat (S t) + 1) by lia.
      reflexivity.
Qed.

(** C5: after a press in a reachable game, [play_game] shows the "Game
    Over" dialog exactly when the round index left by [play_round] equals
    the configured round count or one of the two totals equals 10.  In a
    5-round match every sequence of at most 5 presses is played through,
    the round index after it is the number of presses, and a dialog is
    shown at the fifth press and at no earlier one. *)
Theorem match_finishes_at_limit_or_ten (self fresh : RockPaperScissorsGame)
    (selection ai : string) (play_again : bool) (presses : list press) :
  reachable self ->
  RockPaperScissorsGame_init 5 = Ok fresh ->
  (length presses <= 5)%nat ->
  (exists self1 self' shown,
      play_round self selection ai = Ok self1
      /\ play_game self selection ai play_again = Ok (self', shown)
      /\ (shown <> NoDialog <->
          num_round (game_manager self1) = num_of_games (game_manager self1)
          \/ score_ai self1 = 10 \/ score_player self1 = 10))
  /\ (exists self' shown,
        play_games fresh presses = Ok (self', shown)
        /\ num_round (game_manager self') = Z.of_nat (length presses)
        /\ length shown = length presses
        /\ forall (t : nat) (d : end_game),
             shown !! t = Some d ->
             (d <> NoDialog <-> t = 4%nat) /\ (t = 4%nat -> d = GameOver)).
Proof.
  intros Hreach Hfresh Hlen. split.
  - pose proof (reachable_invariant self Hreach) as Hinv.
    destruct (play_round_invariant self selection ai Hinv) as (self1 & Hplay & Hinv1 & _).
    destruct (handle_end_game_finishes self1 play_again Hinv1)
      as (self' & shown & Hend & Hiff).
    exists self1, self', shown. split; [exact Hplay|]. split; [|exact Hiff].
    unfold play_game. rewrite Hplay. exact Hend.
  - pose proof (init_invariant 5 fresh Hfresh) as Hinv.
    injection Hfresh as <-.
    destruct (play_games_short presses _ Hinv) as (self' & shown & Hrun & Hr & Hl & Hshown);
      [cbn; lia|cbn; lia|].
    exists self', shown. split; [exact Hrun|]. split; [cbn in Hr; lia|].
    split; [exact Hl|].
    intros t d Hd. rewrite (Hshown t d Hd). cbn [game_manager num_round num_of_games].
    destruct (Z.eqb_spec (0 + Z.of_nat t + 1) 5) as [Heq|Hneq].
    + split; [split; [lia|discriminate]|reflexivity].
    + split; [split; [congruence|lia]|lia].
Qed.

Lemma match_finishes_at_limit_or_ten_witness :
  (exists self1 self' shown,
      play_round (fresh_game 30) "Rock" "Paper" = Ok self1
      /\ play_game (fresh_game 30) "Rock" "Paper" true = Ok (self', shown)
      /\ (shown <> NoDialog <->
          num_round (game_manager self1) = num_of_games (game_manager self1)
          \/ score_ai self1 = 10 \/ score_player self1 = 10))
  /\ (exists self' shown,
        play_games (fresh_game 5)
          [("Rock", "Paper", true); ("Rock", "Rock", true);
           ("Paper", "Rock", true); ("Scissors", "Rock", true);
           ("Rock", "Scissors", true)]
        = Ok (self', shown)
        /\ num_round (game_manager self') = Z.of_nat 5
        /\ length shown = 5%nat
        /\ forall (t : nat) (d : end_game),
             shown !! t = Some d ->
             (d <> NoDialog <-> t = 4%nat) /\ (t = 4%nat -> d = GameOver)).
Proof.
  apply (match_finishes_at_limit_or_ten (fresh_game 30) (fresh_game 5)
           "Rock" "Paper" true
           [("Rock", "Paper", true); ("Rock", "Rock", true);
            ("Paper", "Rock", true); ("Scissors", "Rock", true);
            ("Rock", "Scissors", true)]).
  - apply (reachable_init 30). reflexivity.
  - reflexivity.
  - simpl. lia.
Defined.

(** The end-to-end sequence of the specification on a 5-round match, with
    the opponent's draws fixed: the dialogs and the final totals. *)
Example five_round_match :
  exists self',
    play_games (fresh_game 5)
      [("Rock", "Paper", true); ("Rock", "Rock", true);
       ("Paper", "Rock", true); ("Scissors", "Rock", true);
       ("Rock", "Scissors", true)]
    = Ok (self', [NoDialog; NoDialog; NoDialog; NoDialog; GameOver])
    /\ all_player_points (points_manager self') = [-1; 0; 1; -1; 1]
    /\ all_ai_points (points_manager self') = [1; 0; -1; 1; -1]
    /\ num_round (game_manager self') = 5.
Proof. eexists. split; [vm_compute; reflexivity|]. repeat split. Qed.

(** Ten wins in a row in a 30-round match: the dialog appears at the tenth
    press, and with "play again" the game is reset. *)
Example ten_wins_end_the_match :
  exists self',
    play_games (fresh_game 30) (replicate 10 ("Rock", "Scissors", true))
    = Ok (self', (replicate 9 NoDialog ++ [GameOverPlayAgain true])%list)
    /\ num_round (game_manager self') = 0
    /\ score_player self' = 0.
Proof. eexists. split; [vm_compute; reflexivity|]. split; reflexivity. Qed.

(** * Further properties *)

(** ** Moves and their indices *)

Lemma legal_move_cases (s : string) :
  legal_move s \/ ~ legal_move s.
Proof.
  unfold legal_move.
  destruct (string_cases s) as [H | [H | [H | (H1 & H2 & H3)]]]; tauto.
Qed.

(** [get_index] and indexing into [states] are inverse to each other on
    the three moves, and [get_index] is -1 on every other string and on no
    move. *)
Theorem get_index_states_round_trip (s : string) (i : Z) :
  (legal_move s -> states_getitem (get_index s) = Ok s)
  /\ (move_index i -> exists m, states_getitem i = Ok m /\ get_index m = i)
  /\ (get_index s = -1 <-> ~ legal_move s)
  /\ (legal_move s <-> move_index (get_index s)).
Proof.
  split; [|split; [|split]].
  - intros [-> | [-> | ->]]; reflexivity.
  - intros [-> | [-> | ->]]; eexists; split; reflexivity.
  - split.
    + intros H [-> | [-> | ->]]; discriminate H.
    + apply get_index_illegal.
  - split.
    + intros [-> | [-> | ->]]; unfold move_index; cbn; lia.
    + intros H. destruct (legal_move_cases s) as [Hs | Hs]; [exact Hs|].
      rewrite (get_index_illegal s Hs) in H. unfold move_index in H. lia.
Qed.

(** On the three moves the outcome is read off the indices: the player
    wins exactly when the player's index is one above the opponent's in the
    cycle 0, 1, 2, loses exactly when it is one below, and ties exactly
    when the indices are equal. *)
Theorem check_result_by_index (a b : string) :
  legal_move a -> legal_move b ->
  (check_result a b = 1 <-> get_index a = (get_index b + 1) mod 3)
  /\ (check_result a b = -1 <-> get_index b = (get_index a + 1) mod 3)
  /\ (check_result a b = 0 <-> get_index a = get_index b).
Proof.
  intros [-> | [-> | ->]] [-> | [-> | ->]]; vm_compute;
    repeat split; intros H; try reflexivity; discriminate H.
Qed.

Lemma check_result_by_index_witness :
  (check_result "Paper" "Rock" = 1
     <-> get_index "Paper" = (get_index "Rock" + 1) mod 3)
  /\ (check_result "Paper" "Rock" = -1
        <-> get_index "Rock" = (get_index "Paper" + 1) mod 3)
  /\ (check_result "Paper" "Rock" = 0 <-> get_index "Paper" = get_index "Rock").
Proof.
  apply (check_result_by_index "Paper" "Rock"); unfold legal_move; tauto.
Defined.

(** ** More on [learn] *)

Lemma getitem3_out_of_range {A : Type} (v : vec3 A) (idx : Z) :
  ~ (-3 <= idx <= 2) -> getitem3 v idx = Raise IndexError.
Proof.
  intros H. destruct idx as [|q|q]; [lia| |];
    destruct q as [[q|q|]|[q|q|]|]; cbn; try reflexivity; lia.
Qed.

(** [learn] returns exactly when both indices are valid for an array of
    length 3, that is within -3..2; otherwise it raises [IndexError]. *)
Theorem learn_index_error (self : TransitionManager) (p c : Z) :
  (-3 <= p <= 2 /\ -3 <= c <= 2 -> exists self', learn self p c = Ok self')
  /\ (~ (-3 <= p <= 2 /\ -3 <= c <= 2) -> learn self p c = Raise IndexError).
Proof.
  split.
  - intros [Hp Hc]. exact (learn_returns self p c Hp Hc).
  - intros H. unfold learn, learn_guard, and_then, cell, bind.
    destruct (getitem3 (transition_matrix self) p) as [row|e] eqn:Hrow.
    + destruct (getitem3 row c) as [x|e] eqn:Hcell.
      * exfalso. apply H. split; eapply getitem3_Ok_range; eassumption.
      * assert (~ (-3 <= c <= 2)) as Hc.
        { intros Hc. apply H. split; [|exact Hc].
          eapply getitem3_Ok_range; eassumption. }
        rewrite (getitem3_out_of_range row c Hc) in Hcell.
        injection Hcell as <-. reflexivity.
    + assert (~ (-3 <= p <= 2)) as Hp.
      { intros Hp.
        assert (p = -3 \/ p = -2 \/ p = -1 \/ p = 0 \/ p = 1 \/ p = 2) as Hp' by lia.
        destruct Hp' as [-> | [-> | [-> | [-> | [-> | ->]]]]]; discriminate Hrow. }
      rewrite (getitem3_out_of_range _ p Hp) in Hrow.
      injection Hrow as <-. reflexivity.
Qed.

(** A negative index denotes the same row or column as the index three
    above it: [learn] with indices in -3..2 is [learn] with the indices
    taken modulo 3.  In particular the -1 that [get_index] returns for an
    unknown string acts as index 2. *)
Theorem learn_negative_indices (self : TransitionManager) (p c : Z) :
  -3 <= p <= 2 -> -3 <= c <= 2 ->
  learn self p c = learn self (p mod 3) (c mod 3).
Proof.
  intros Hp Hc.
  assert (p = -3 \/ p = -2 \/ p = -1 \/ p = 0 \/ p = 1 \/ p = 2) as Hp' by lia.
  assert (c = -3 \/ c = -2 \/ c = -1 \/ c = 0 \/ c = 1 \/ c = 2) as Hc' by lia.
  destruct Hp' as [-> | [-> | [-> | [-> | [-> | ->]]]]];
    destruct Hc' as [-> | [-> | [-> | [-> | [-> | ->]]]]];
    eval_mod3; try reflexivity;
    unfold learn, learn_guard; eval_mod3;
    destruct self as [[[? ? ?] [? ? ?] [? ? ?]] ?]; reflexivity.
Qed.

Lemma learn_negative_indices_witness :
  learn TransitionManager_init (-1) (-1)
  = learn TransitionManager_init ((-1) mod 3) ((-1) mod 3).
Proof.
  apply (learn_negative_indices TransitionManager_init (-1) (-1)); lia.
Defined.





(** *** Saturation *)







(** From the uniform matrix the plateau is reached after 13 calls: the
    cells of the two other moves are then 1/3 - 13/40 = 1/120. *)
Example learn_repeat_from_uniform :
  exists self',
    learn_repeat 13 TransitionManager_init 0 0 = Ok self'
    /\ learn self' 0 0 = Ok self'
    /\ (exists row, predict self' 0 = Ok row
          /\ (v0 row == 1 # 120)%Q /\ (v1 row == 59 # 60)%Q /\ (v2 row == 1 # 120)%Q).
Proof.
  eexists. split; [vm_compute; reflexivity|]. split; [vm_compute; reflexivity|].
  eexists. split; [vm_compute; reflexivity|]. repeat split.
Qed.

(** *** What is learned *)



(** Training two different rows commutes: the two calls give the same
    manager in either order. *)
Theorem learn_rows_commute (self : TransitionManager) (p1 c1 p2 c2 : Z) :
  move_index p1 -> move_index c1 -> move_index p2 -> move_index c2 ->
  p1 <> p2 ->
  (let* self1 := learn self p1 c1 in learn self1 p2 c2)
  = (let* self2 := learn self p2 c2 in learn self2 p1 c1).
Proof.
  intros Hp1 Hc1 Hp2 Hc2 Hne.
  destruct Hp1 as [-> | [-> | ->]]; destruct Hp2 as [-> | [-> | ->]];
    try (exfalso; apply Hne; reflexivity);
    destruct Hc1 as [-> | [-> | ->]]; destruct Hc2 as [-> | [-> | ->]];
    learn_eval self; split_guards; first [reflexivity | congruence].
Qed.

Lemma learn_rows_commute_witness :
  (let* self1 := learn TransitionManager_init 0 0 in learn self1 1 2)
  = (let* self2 := learn TransitionManager_init 1 2 in learn self2 0 0).
Proof.
  apply (learn_rows_commute TransitionManager_init 0 0 1 2);
    unfold move_index; lia.
Defined.

(** ** More on the round engine *)

Lemma results_in_range_replicate (n : nat) : results_in_range (replicate n 0).
Proof. unfold results_in_range. apply Forall_replicate. lia. Qed.

Lemma results_in_range_opp (a : list Z) :
  results_in_range a -> results_in_range (Z.opp <$> a).
Proof.
  unfold results_in_range. intros H. apply Forall_fmap.
  eapply Forall_impl; [exact H|]. cbn. intros x Hx. lia.
Qed.

Lemma play_round_outcome (self : RockPaperScissorsGame) (selection ai : string) :
  game_invariant self ->
  num_round (game_manager self) <> num_of_games (game_manager self) ->
  exists self',
    play_round self selection ai = Ok self'
    /\ score_player self' = score_player self + check_result selection ai
    /\ score_ai self' = score_ai self - check_result selection ai
    /\ all_player_points (points_manager self')
         !! Z.to_nat (num_round (game_manager self))
       = Some (check_result selection ai)
    /\ all_ai_points (points_manager self')
         !! Z.to_nat (num_round (game_manager self))
       = Some (- check_result selection ai)
    /\ (forall i : nat,
          i <> Z.to_nat (num_round (game_manager self)) ->
          all_player_points (points_manager self') !! i
          = all_player_points (points_manager self) !! i
          /\ all_ai_points (points_manager self') !! i
             = all_ai_points (points_manager self) !! i)
    /\ num_round (game_manager self') = num_round (game_manager self) + 1
    /\ num_of_games (game_manager self') = num_of_games (game_manager self)
    /\ previous_user_selection self' = selection.
Proof.
  intros Hinv Hne.
  destruct (play_round_plays self selection ai Hinv Hne) as (tm & Hplay & _).
  destruct Hinv as (Hr & Hlen & Hai & Hzero & Hsum).
  assert (all_player_points (points_manager self)
            !! Z.to_nat (num_round (game_manager self)) = Some 0) as Hold
    by (apply Hzero; lia).
  eexists. split; [exact Hplay|].
  unfold score_player, score_ai; cbn.
  split; [rewrite (np_sum_insert _ _ _ 0 Hold); lia|].
  split.
  { rewrite (np_sum_insert _ _ _ 0); [lia|].
    rewrite Hai, list_lookup_fmap, Hold. reflexivity. }
  split; [apply list_lookup_insert_eq; lia|].
  split; [apply list_lookup_insert_eq; rewrite Hai, length_fmap; lia|].
  split; [|repeat split].
  intros i Hi. split; apply list_lookup_insert_ne; congruence.
Qed.

(** A played round adds the outcome to the player's total and subtracts
    it from the AI's, writes nothing but the entry of the round, advances
    the round index by one, keeps the configured round count and stores
    the selection as the previous one. *)
Theorem play_round_records_outcome (self : RockPaperScissorsGame)
    (selection ai : string) :
  reachable self ->
  num_round (game_manager self) <> num_of_games (game_manager self) ->
  exists self',
    play_round self selection ai = Ok self'
    /\ score_player self' = score_player self + check_result selection ai
    /\ score_ai self' = score_ai self - check_result selection ai
    /\ all_player_points (points_manager self')
         !! Z.to_nat (num_round (game_manager self))
       = Some (check_result selection ai)
    /\ all_ai_points (points_manager self')
         !! Z.to_nat (num_round (game_manager self))
       = Some (- check_result selection ai)
    /\ (forall i : nat,
          i <> Z.to_nat (num_round (game_manager self)) ->
          all_player_points (points_manager self') !! i
          = all_player_points (points_manager self) !! i
          /\ all_ai_points (points_manager self') !! i
             = all_ai_points (points_manager self) !! i)
    /\ num_round (game_manager self') = num_round (game_manager self) + 1
    /\ num_of_games (game_manager self') = num_of_games (game_manager self)
    /\ previous_user_selection self' = selection.
Proof.
  intros Hreach Hne.
  exact (play_round_outcome self selection ai (reachable_invariant self Hreach) Hne).
Qed.

Lemma play_round_records_outcome_witness :
  exists self',
    play_round (fresh_game 30) "Paper" "Rock" = Ok self'
    /\ score_player self' = score_player (fresh_game 30) + check_result "Paper" "Rock"
    /\ score_ai self' = score_ai (fresh_game 30) - check_result "Paper" "Rock"
    /\ all_player_points (points_manager self')
         !! Z.to_nat (num_round (game_manager (fresh_game 30)))
       = Some (check_result "Paper" "Rock")
    /\ all_ai_points (points_manager self')
         !! Z.to_nat (num_round (game_manager (fresh_game 30)))
       = Some (- check_result "Paper" "Rock")
    /\ (forall i : nat,
          i <> Z.to_nat (num_round (game_manager (fresh_game 30))) ->
          all_player_points (points_manager self') !! i
          = all_player_points (points_manager (fresh_game 30)) !! i
          /\ all_ai_points (points_manager self') !! i
             = all_ai_points (points_manager (fresh_game 30)) !! i)
    /\ num_round (game_manager self') = num_round (game_manager (fresh_game 30)) + 1
    /\ num_of_games (game_manager self') = num_of_games (game_manager (fresh_game 30))
    /\ previous_user_selection self' = "Paper".
Proof.
  apply (play_round_records_outcome (fresh_game 30) "Paper" "Rock").
  - apply (reachable_init 30). reflexivity.
  - simpl. lia.
Defined.

(** What either branch of [play_round] does to the player's array. *)
Lemma play_round_player_points (self self1 : RockPaperScissorsGame)
    (selection ai : string) :
  game_invariant self -> play_round self selection ai = Ok self1 ->
  all_player_points (points_manager self1)
  = replicate (Z.to_nat (num_of_games (game_manager self))) 0
  \/ all_player_points (points_manager self1)
     = <[Z.to_nat (num_round (game_manager self)) := check_result selection ai]>
         (all_player_points (points_manager self)).
Proof.
  intros Hinv Hplay.
  destruct (Z.eq_dec (num_round (game_manager self))
              (num_of_games (game_manager self))) as [Heq|Hne].
  - left. rewrite (play_round_resets self selection ai Heq) in Hplay.
    destruct Hinv as (Hr & _).
    rewrite reset_game_spec in Hplay by lia. injection Hplay as <-. reflexivity.
  - right. destruct (play_round_plays self selection ai Hinv Hne) as (tm & Hplay' & _).
    rewrite Hplay in Hplay'. injection Hplay' as ->. reflexivity.
Qed.

(** What [handle_end_game] returns: the game as it is, or the reset one. *)
Lemma handle_end_game_cases (self self' : RockPaperScissorsGame)
    (play_again : bool) (shown : end_game) :
  handle_end_game self play_again = Ok (self', shown) ->
  self' = self \/ (reset_game self = Ok self' /\ shown = GameOverPlayAgain true).
Proof.
  unfold handle_end_game.
  destruct (num_round (game_manager self) =? num_of_games (game_manager self)).
  { intros [= <- <-]. left. reflexivity. }
  destruct (Z.max (score_ai self) (score_player self) =? 10).
  2: { intros [= <- <-]. left. reflexivity. }
  destruct play_again.
  2: { intros [= <- <-]. left. reflexivity. }
  destruct (reset_game self) as [self1|e]; cbn [bind]; [|discriminate].
  intros [= <- <-]. right. split; reflexivity.
Qed.

Lemma reset_game_Ok (self self' : RockPaperScissorsGame) :
  reset_game self = Ok self' ->
  0 <= num_of_games (game_manager self)
  /\ self' = {| transition_manager := transition_manager self;
                game_manager :=
                  {| num_of_games := num_of_games (game_manager self);
                     num_round := 0 |};
                points_manager :=
                  {| all_ai_points :=
                       replicate (Z.to_nat (num_of_games (game_manager self))) 0;
                     all_player_points :=
                       replicate (Z.to_nat (num_of_games (game_manager self))) 0 |};
                previous_user_selection := "" |}.
Proof.
  intros H.
  destruct (Z_lt_dec (num_of_games (game_manager self)) 0) as [Hneg|Hpos].
  - unfold reset_game, np_zeros in H. cbn in H.
    destruct (Z.ltb_spec (num_of_games (game_manager self)) 0); [discriminate H|lia].
  - split; [lia|]. rewrite reset_game_spec in H by lia. injection H as <-. reflexivity.
Qed.

Lemma reachable_results_in_range (self : RockPaperScissorsGame) :
  reachable self -> results_in_range (all_player_points (points_manager self)).
Proof.
  induction 1 as [n self Hinit | self selection ai again self' shown Hreach IH _ Hplay _].
  - unfold RockPaperScissorsGame_init, np_zeros in Hinit.
    destruct (n <? 0); [discriminate Hinit|]. injection Hinit as <-.
    apply results_in_range_replicate.
  - pose proof (reachable_invariant self Hreach) as Hinv.
    destruct (play_game_invariant self selection ai again Hinv)
      as (self1 & self2 & shown2 & Hround & _ & Hend & Hplay2 & _).
    rewrite Hplay in Hplay2. injection Hplay2 as <- <-.
    assert (results_in_range (all_player_points (points_manager self1))) as H1.
    { destruct (play_round_player_points self self1 selection ai Hinv Hround) as [-> | ->].
      - apply results_in_range_replicate.
      - apply Forall_insert; [exact IH|]. apply check_result_range. }
    destruct (handle_end_game_cases self1 self' again shown Hend) as [-> | [Hreset _]];
      [exact H1|].
    destruct (reset_game_Ok self1 self' Hreset) as [_ ->]. cbn.
    apply results_in_range_replicate.
Qed.

(** The game is zero-sum and bounded: in every reachable game the AI's
    entries are the player's negated, so the totals are opposite; every
    entry is -1, 0 or 1; both arrays have [num_of_games] entries; the
    round index is between 0 and the round count, and no total exceeds the
    number of rounds played. *)
Theorem reachable_scores_zero_sum (self : RockPaperScissorsGame) :
  reachable self ->
  score_ai self = - score_player self
  /\ all_ai_points (points_manager self)
     = Z.opp <$> all_player_points (points_manager self)
  /\ results_in_range (all_player_points (points_manager self))
  /\ results_in_range (all_ai_points (points_manager self))
  /\ length (all_player_points (points_manager self))
     = Z.to_nat (num_of_games (game_manager self))
  /\ length (all_ai_points (points_manager self))
     = Z.to_nat (num_of_games (game_manager self))
  /\ 0 <= num_round (game_manager self) <= num_of_games (game_manager self)
  /\ - num_round (game_manager self) <= score_player self
       <= num_round (game_manager self).
Proof.
  intros Hreach.
  pose proof (reachable_invariant self Hreach) as Hinv.
  pose proof (reachable_results_in_range self Hreach) as Hrange.
  destruct (invariant_scores self Hinv) as [Hopp Hbound].
  destruct Hinv as (Hr & Hlen & Hai & _ & _).
  split; [exact Hopp|]. split; [exact Hai|]. split; [exact Hrange|].
  split; [rewrite Hai; apply results_in_range_opp; exact Hrange|].
  split; [exact Hlen|]. split; [rewrite Hai, length_fmap; exact Hlen|].
  split; [exact Hr|exact Hbound].
Qed.

Lemma reachable_scores_zero_sum_witness :
  score_ai finished_single_round_game = - score_player finished_single_round_game
  /\ all_ai_points (points_manager finished_single_round_game)
     = Z.opp <$> all_player_points (points_manager finished_single_round_game)
  /\ results_in_range (all_player_points (points_manager finished_single_round_game))
  /\ results_in_range (all_ai_points (points_manager finished_single_round_game))
  /\ length (all_player_points (points_manager finished_single_round_game))
     = Z.to_nat (num_of_games (game_manager finished_single_round_game))
  /\ length (all_ai_points (points_manager finished_single_round_game))
     = Z.to_nat (num_of_games (game_manager finished_single_round_game))
  /\ 0 <= num_round (game_manager finished_single_round_game)
       <= num_of_games (game_manager finished_single_round_game)
  /\ - num_round (game_manager finished_single_round_game)
       <= score_player finished_single_round_game
       <= num_round (game_manager finished_single_round_game).
Proof.
  apply (reachable_scores_zero_sum finished_single_round_game).
  apply (reachable_play (fresh_game 1) "Paper" "Rock" false _ GameOver).
  - apply (reachable_init 1). reflexivity.
  - simpl. tauto.
  - reflexivity.
  - discriminate.
Defined.

(** A total of 10 is never carried into a further round: in every
    reachable game both totals are between -10 and 10, and a total of 10
    or -10 is held only at the round limit, where the next press resets
    the game. *)
Theorem reachable_score_cap (self : RockPaperScissorsGame) :
  reachable self ->
  -10 <= score_player self <= 10
  /\ -10 <= score_ai self <= 10
  /\ (score_player self = 10 \/ score_ai self = 10 ->
      num_round (game_manager self) = num_of_games (game_manager self)).
Proof.
  intros Hreach.
  assert (score_ai self = - score_player self
          /\ (-9 <= score_player self <= 9
              \/ (num_round (game_manager self) = num_of_games (game_manager self)
                  /\ -10 <= score_player self <= 10))) as [Hopp Hcap];
    [|lia].
  induction Hreach as [n self Hinit | self selection ai again self' shown Hreach IH _ Hplay Hshown].
  - pose proof (init_invariant n self Hinit) as Hinv.
    destruct (invariant_scores self Hinv) as [Hopp Hbound].
    split; [exact Hopp|]. left.
    unfold RockPaperScissorsGame_init, np_zeros in Hinit.
    destruct (n <? 0); [discriminate Hinit|]. injection Hinit as <-.
    unfold score_player; cbn. rewrite np_sum_replicate. lia.
  - destruct IH as [_ IH].
    pose proof (reachable_invariant self Hreach) as Hinv.
    destruct (play_game_invariant self selection ai again Hinv)
      as (self1 & self2 & shown2 & Hround & Hinv1 & Hend & Hplay2 & Hinv2 & _).
    rewrite Hplay in Hplay2. injection Hplay2 as <- <-.
    destruct (invariant_scores self' Hinv2) as [Hopp' _].
    split; [exact Hopp'|].
    destruct (invariant_scores self1 Hinv1) as [Hopp1 _].
    assert (-10 <= score_player self1 <= 10) as H1.
    { destruct (Z.eq_dec (num_round (game_manager self))
                  (num_of_games (game_manager self))) as [Heq|Hne].
      - rewrite (play_round_resets self selection ai Heq) in Hround.
        destruct (reset_game_Ok self self1 Hround) as [_ ->].
        unfold score_player; cbn. rewrite np_sum_replicate. lia.
      - destruct (play_round_outcome self selection ai Hinv Hne)
          as (self1' & Hround' & Hscore & _).
        rewrite Hround in Hround'. injection Hround' as <-.
        pose proof (check_result_range selection ai). lia. }
    revert Hend. unfold handle_end_game.
    destruct (Z.eqb_spec (num_round (game_manager self1))
                (num_of_games (game_manager self1))) as [Heq|Hne].
    { intros [= <- <-]. right. split; [exact Heq|exact H1]. }
    destruct (Z.eqb_spec (Z.max (score_ai self1) (score_player self1)) 10)
      as [Hmax|Hmax].
    2: { intros [= <- <-]. left. lia. }
    destruct again.
    2: { intros [= <- <-]. exfalso. apply Hshown. reflexivity. }
    destruct (reset_game self1) as [self1'|e] eqn:Hreset; cbn [bind]; [|discriminate].
    intros [= <- <-]. destruct (reset_game_Ok self1 self1' Hreset) as [_ ->].
    left. unfold score_player; cbn. rewrite np_sum_replicate. lia.
Qed.

Lemma reachable_score_cap_witness :
  -10 <= score_player finished_single_round_game <= 10
  /\ -10 <= score_ai finished_single_round_game <= 10
  /\ (score_player finished_single_round_game = 10
      \/ score_ai finished_single_round_game = 10 ->
      num_round (game_manager finished_single_round_game)
      = num_of_games (game_manager finished_single_round_game)).
Proof.
  apply (reachable_score_cap finished_single_round_game).
  apply (reachable_play (fresh_game 1) "Paper" "Rock" false _ GameOver).
  - apply (reachable_init 1). reflexivity.
  - simpl. tauto.
  - reflexivity.
  - discriminate.
Defined.

(** *** The distribution handed to [np.random.choice] *)

Lemma play_round_transition_manager (self self1 : RockPaperScissorsGame)
    (selection ai : string) :
  game_invariant self -> play_round self selection ai = Ok self1 ->
  transition_manager self1 = transition_manager self
  \/ (num_round (game_manager self) <> 0
      /\ num_round (game_manager self) <> num_of_games (game_manager self)
      /\ learn (transition_manager self)
           (get_index (previous_user_selection self)) (get_index selection)
         = Ok (transition_manager self1)).
Proof.
  intros Hinv Hplay.
  destruct (Z.eq_dec (num_round (game_manager self))
              (num_of_games (game_manager self))) as [Heq|Hne].
  - left. rewrite (play_round_resets self selection ai Heq) in Hplay.
    destruct (reset_game_Ok self self1 Hplay) as [_ ->]. reflexivity.
  - destruct (play_round_plays self selection ai Hinv Hne) as (tm & Hplay' & H0 & Hlearn).
    rewrite Hplay in Hplay'. injection Hplay' as ->. cbn.
    destruct (Z.eq_dec (num_round (game_manager self)) 0) as [Hz|Hnz].
    + left. exact (H0 Hz).
    + right. split; [exact Hnz|]. split; [exact Hne|]. exact (Hlearn Hnz).
Qed.





(** *** Play through the buttons *)

Lemma button_selection_legal (selection : string) :
  In selection button_selections <-> legal_move selection.
Proof.
  unfold button_selections, legal_move. cbn.
  split; intros H; repeat destruct H as [H | H]; auto; contradiction.
Qed.

Lemma legal_move_index (selection : string) :
  legal_move selection -> move_index (get_index selection).
Proof. intros [-> | [-> | ->]]; unfold move_index; cbn; lia. Qed.

(** Through the three buttons [learn] is only ever called with move
    indices, never with the -1 of [get_index]: every game so reached is a
    reachable one, its transition manager is one that the initial manager
    becomes under [learn] calls with indices in {0,1,2}, its previous
    selection is empty in round 0, and is one of the three moves in every
    later round. *)
Theorem gui_reachable_learns_moves (self : RockPaperScissorsGame) :
  gui_reachable self ->
  reachable self
  /\ learn_reachable (transition_manager self)
  /\ (num_round (game_manager self) = 0 -> previous_user_selection self = "")
  /\ (num_round (game_manager self) <> 0 ->
      legal_move (previous_user_selection self)).
Proof.
  induction 1
    as [n self Hinit
       | self selection ai again self' shown _ IH Hsel Hai Hplay Hshown].
  - split; [exact (reachable_init n self Hinit)|].
    unfold RockPaperScissorsGame_init in Hinit.
    destruct (np_zeros n); [|discriminate Hinit]. injection Hinit as <-. cbn.
    split; [apply learn_reachable_init|]. split; [reflexivity|congruence].
  - destruct IH as (Hreach & Htm & Hprev0 & Hprev).
    split; [exact (reachable_play self selection ai again self' shown
                    Hreach Hai Hplay Hshown)|].
    pose proof (reachable_invariant self Hreach) as Hinv.
    apply button_selection_legal in Hsel.
    destruct (play_game_invariant self selection ai again Hinv)
      as (self1 & self2 & shown2 & Hround & _ & Hend & Hplay2 & _).
    rewrite Hplay in Hplay2. injection Hplay2 as <- <-.
    assert (learn_reachable (transition_manager self1)) as Htm1.
    { destruct (play_round_transition_manager self self1 selection ai Hinv Hround)
        as [-> | (Hnz & _ & Hlearn)]; [exact Htm|].
      eapply learn_reachable_step; [exact Htm| | |exact Hlearn].
      - apply legal_move_index. exact (Hprev Hnz).
      - apply legal_move_index. exact Hsel. }
    assert ((num_round (game_manager self1) = 0 ->
             previous_user_selection self1 = "")
            /\ (num_round (game_manager self1) <> 0 ->
                legal_move (previous_user_selection self1))) as Hprev1.
    { destruct (Z.eq_dec (num_round (game_manager self))
                  (num_of_games (game_manager self))) as [Heq|Hne].
      - rewrite (play_round_resets self selection ai Heq) in Hround.
        destruct (reset_game_Ok self self1 Hround) as [_ ->]. cbn.
        split; [reflexivity|congruence].
      - destruct (play_round_outcome self selection ai Hinv Hne)
          as (self1' & Hround' & _ & _ & _ & _ & _ & Hr1 & _ & Hp1).
        rewrite Hround in Hround'. injection Hround' as <-.
        destruct Hinv as (Hr & _).
        split; [lia|]. intros _. rewrite Hp1. exact Hsel. }
    destruct (handle_end_game_cases self1 self' again shown Hend)
      as [-> | [Hreset _]].
    + split; [exact Htm1|exact Hprev1].
    + destruct (reset_game_Ok self1 self' Hreset) as [_ ->]. cbn.
      split; [exact Htm1|]. split; [reflexivity|congruence].
Qed.

Lemma gui_reachable_learns_moves_witness :
  reachable finished_single_round_game
  /\ learn_reachable (transition_manager finished_single_round_game)
  /\ (num_round (game_manager finished_single_round_game) = 0 ->
      previous_user_selection finished_single_round_game = "")
  /\ (num_round (game_manager finished_single_round_game) <> 0 ->
      legal_move (previous_user_selection finished_single_round_game)).
Proof.
  apply (gui_reachable_learns_moves finished_single_round_game).
  apply (gui_reachable_play (fresh_game 1) "Paper" "Rock" false _ GameOver).
  - apply (gui_reachable_init 1). reflexivity.
  - simpl. tauto.
  - simpl. tauto.
  - reflexivity.
  - discriminate.
Defined.

(** *** The "Game Over" message *)

Lemma np_count_eq_cons (x y : Z) (a : list Z) :
  np_count_eq (x :: a) y = (if Z.eq_dec x y then 1 else 0) + np_count_eq a y.
Proof.
  unfold np_count_eq. cbn [count_occ].
  destruct (Z.eq_dec x y); lia.
Qed.

Lemma np_count_eq_nonneg (a : list Z) (y : Z) : 0 <= np_count_eq a y.
Proof. unfold np_count_eq. lia. Qed.

Lemma np_sum_by_counts (a : list Z) :
  results_in_range a -> np_sum a = np_count_eq a 1 - np_count_eq a (-1).
Proof.
  unfold results_in_range. induction 1 as [|x a Hx _ IH]; [reflexivity|].
  rewrite np_sum_cons, !np_count_eq_cons, IH.
  destruct (Z.eq_dec x 1), (Z.eq_dec x (-1)); lia.
Qed.

Lemma np_count_eq_played (a : list Z) :
  forall r : nat,
    (forall i : nat, (r <= i < length a)%nat -> a !! i = Some 0) ->
    np_count_eq a 1 + np_count_eq a (-1) <= Z.of_nat r.
Proof.
  induction a as [|x a IH]; intros r H.
  - unfold np_count_eq. cbn. lia.
  - rewrite !np_count_eq_cons. destruct r as [|r].
    + assert (x = 0) as ->.
      { specialize (H 0%nat). cbn in H. assert (Some x = Some 0) as E by (apply H; lia).
        injection E as ->. reflexivity. }
      specialize (IH 0%nat). cbn.
      assert (np_count_eq a 1 + np_count_eq a (-1) <= Z.of_nat 0) as IH'.
      { apply IH. intros i Hi. apply (H (S i)). cbn. lia. }
      lia.
    + assert (np_count_eq a 1 + np_count_eq a (-1) <= Z.of_nat r) as IH'.
      { apply IH. intros i Hi. apply (H (S i)). cbn. lia. }
      destruct (Z.eq_dec x 1), (Z.eq_dec x (-1)); lia.
Qed.

(** The "Game Over" message agrees with the game.  After a round played
    from a reachable game, a message is composed exactly when a dialog is
    shown; its three round counts are non-negative, add up to the rounds
    played, and won minus lost is the player's total; it says "Tie" only
    when both totals are 0, and otherwise names as winner the side whose
    total is positive and shows that total. *)
Theorem handle_end_game_message_consistent (self self1 self' : RockPaperScissorsGame)
    (selection ai : string) (play_again : bool) (shown : end_game) :
  reachable self ->
  play_round self selection ai = Ok self1 ->
  handle_end_game self1 play_again = Ok (self', shown) ->
  (shown = NoDialog <-> handle_end_game_message self1 = None)
  /\ forall msg,
       handle_end_game_message self1 = Some msg ->
       0 <= num_rounds_won msg /\ 0 <= num_rounds_lost msg
       /\ 0 <= num_rounds_tied msg
       /\ num_rounds_won msg + num_rounds_lost msg + num_rounds_tied msg
          = num_round (game_manager self1)
       /\ num_rounds_won msg - num_rounds_lost msg = score_player self1
       /\ match message_verdict msg with
          | Tie => score_player self1 = 0 /\ score_ai self1 = 0
          | Wins winner score =>
              0 < score
              /\ ((winner = "Player" /\ score = score_player self1)
                  \/ (winner = "AI" /\ score = score_ai self1))
          end.
Proof.
  intros Hreach Hround Hend.
  pose proof (reachable_invariant self Hreach) as Hinv.
  destruct (play_round_invariant self selection ai Hinv) as (s1 & Hround' & Hinv1 & _).
  rewrite Hround in Hround'. injection Hround' as <-.
  assert (results_in_range (all_player_points (points_manager self1))) as Hrange.
  { destruct (play_round_player_points self self1 selection ai Hinv Hround) as [-> | ->].
    - apply results_in_range_replicate.
    - apply Forall_insert; [apply reachable_results_in_range; exact Hreach|].
      apply check_result_range. }
  destruct (invariant_scores self1 Hinv1) as [Hopp _].
  destruct Hinv1 as (Hr & Hlen & _ & Hzero & _).
  pose proof (np_sum_by_counts _ Hrange) as Hsum.
  pose proof (np_count_eq_played (all_player_points (points_manager self1))
                (Z.to_nat (num_round (game_manager self1)))) as Hplayed.
  rewrite Z2Nat.id in Hplayed by lia.
  assert (np_count_eq (all_player_points (points_manager self1)) 1
          + np_count_eq (all_player_points (points_manager self1)) (-1)
          <= num_round (game_manager self1)) as Hcount.
  { apply Hplayed. intros i Hi. apply Hzero. lia. }
  pose proof (np_count_eq_nonneg (all_player_points (points_manager self1)) 1).
  pose proof (np_count_eq_nonneg (all_player_points (points_manager self1)) (-1)).
  fold (score_player self1) in Hsum.
  revert Hend. unfold handle_end_game, handle_end_game_message.
  destruct (Z.eqb_spec (num_round (game_manager self1))
              (num_of_games (game_manager self1))) as [Heq|Hne].
  - intros [= <- <-]. split.
    { split; [discriminate|].
      destruct (score_ai self1 =? score_player self1); discriminate. }
    intros msg.
    destruct (Z.eqb_spec (score_ai self1) (score_player self1)) as [Hs|Hs].
    + intros [= <-]. cbn. repeat split; lia.
    + destruct (Z.eqb_spec (score_ai self1)
                  (Z.max (score_ai self1) (score_player self1))) as [Hm|Hm];
        intros [= <-]; cbn; repeat split; try lia.
      * right. split; [reflexivity|exact (eq_sym Hm)].
      * left. split; [reflexivity|lia].
  - destruct (Z.eqb_spec (Z.max (score_ai self1) (score_player self1)) 10)
      as [Hmax|Hmax].
    + intros Hshown. split.
      { split; [|discriminate]. intros ->.
        destruct play_again; [|discriminate Hshown].
        destruct (reset_game self1); cbn [bind] in Hshown; discriminate Hshown. }
      intros msg.
      destruct (Z.eqb_spec (score_ai self1)
                  (Z.max (score_ai self1) (score_player self1))) as [Hm|Hm];
        intros [= <-]; cbn; repeat split; try lia.
      * right. split; [reflexivity|exact (eq_sym Hm)].
      * left. split; [reflexivity|lia].
    + intros [= <- <-]. split; [split; reflexivity|]. intros msg [=].
Qed.

Lemma handle_end_game_message_consistent_witness :
  (GameOver = NoDialog
   <-> handle_end_game_message finished_single_round_game = None)
  /\ forall msg,
       handle_end_game_message finished_single_round_game = Some msg ->
       0 <= num_rounds_won msg /\ 0 <= num_rounds_lost msg
       /\ 0 <= num_rounds_tied msg
       /\ num_rounds_won msg + num_rounds_lost msg + num_rounds_tied msg
          = num_round (game_manager finished_single_round_game)
       /\ num_rounds_won msg - num_rounds_lost msg
          = score_player finished_single_round_game
       /\ match message_verdict msg with
          | Tie => score_player finished_single_round_game = 0
                   /\ score_ai finished_single_round_game = 0
          | Wins winner score =>
              0 < score
              /\ ((winner = "Player"
                   /\ score = score_player finished_single_round_game)
                  \/ (winner = "AI"
                      /\ score = score_ai finished_single_round_game))
          end.
Proof.
  apply (handle_end_game_message_consistent (fresh_game 1)
           finished_single_round_game finished_single_round_game
           "Paper" "Rock" false GameOver).
  - apply (reachable_init 1). reflexivity.
  - reflexivity.
  - reflexivity.
Defined.

(** The message after the single round of a one-round match won with
    Paper against Rock. *)
Example single_round_message :
  handle_end_game_message finished_single_round_game
  = Some {| message_verdict := Wins "Player" 1;
            num_rounds_won := 1; num_rounds_lost := 0; num_rounds_tied := 0 |}.
Proof. reflexivity. Qed.

(** *** Labels, reset and construction *)

(** The labels after a round: the round shown is the next round's number
    capped at 30, so it is between 1 and 30 whatever the match length, and
    within the round count of the default 30-round match; the round count
    shown is the configured one, and the two totals shown are opposite. *)
Theorem update_scores_labels (self self1 : RockPaperScissorsGame)
    (selection ai : string) :
  reachable self ->
  play_round self selection ai = Ok self1 ->
  fst (round_label (update_scores self1))
  = Z.min (num_round (game_manager self1) + 1) 30
  /\ 1 <= fst (round_label (update_scores self1)) <= 30
  /\ snd (round_label (update_scores self1)) = num_of_games (game_manager self)
  /\ (num_of_games (game_manager self) = 30 ->
      fst (round_label (update_scores self1))
      <= snd (round_label (update_scores self1)))
  /\ ai_score_label (update_scores self1)
     = - player_score_label (update_scores self1).
Proof.
  intros Hreach Hround.
  pose proof (reachable_invariant self Hreach) as Hinv.
  destruct (play_round_invariant self selection ai Hinv) as (s1 & Hround' & Hinv1 & Hn).
  rewrite Hround in Hround'. injection Hround' as <-.
  destruct (invariant_scores self1 Hinv1) as [Hopp _].
  destruct Hinv1 as (Hr & _).
  unfold update_scores; cbn [round_label ai_score_label player_score_label fst snd].
  destruct (Z.leb_spec (num_round (game_manager self1) + 1) 30); repeat split; lia.
Qed.

Lemma update_scores_labels_witness :
  fst (round_label (update_scores finished_single_round_game))
  = Z.min (num_round (game_manager finished_single_round_game) + 1) 30
  /\ 1 <= fst (round_label (update_scores finished_single_round_game)) <= 30
  /\ snd (round_label (update_scores finished_single_round_game))
     = num_of_games (game_manager (fresh_game 1))
  /\ (num_of_games (game_manager (fresh_game 1)) = 30 ->
      fst (round_label (update_scores finished_single_round_game))
      <= snd (round_label (update_scores finished_single_round_game)))
  /\ ai_score_label (update_scores finished_single_round_game)
     = - player_score_label (update_scores finished_single_round_game).
Proof.
  apply (update_scores_labels (fresh_game 1) finished_single_round_game
           "Paper" "Rock").
  - apply (reachable_init 1). reflexivity.
  - reflexivity.
Defined.

(** In a match shorter than 30 rounds the label overshoots at the end:
    after the last round of a one-round match it shows round 2 of 1. *)
Example round_label_after_last_round :
  round_label (update_scores finished_single_round_game) = (2, 1).
Proof. reflexivity. Qed.



(** ** The window *)

(** [center_window] keeps the size and centres the window: the left and
    right margins differ by at most one pixel, as do the top and bottom
    ones, and a window no larger than the screen lies within it. *)
Theorem center_window_centred (window_width window_height screen_width screen_height : Z) :
  window_width <= screen_width -> window_height <= screen_height ->
  exists x_axis y_axis,
    center_window window_width window_height screen_width screen_height
    = (window_width, window_height, x_axis, y_axis)
    /\ 0 <= x_axis /\ x_axis + window_width <= screen_width
    /\ 0 <= y_axis /\ y_axis + window_height <= screen_height
    /\ -1 <= (screen_width - (x_axis + window_width)) - x_axis <= 1
    /\ -1 <= (screen_height - (y_axis + window_height)) - y_axis <= 1.
Proof.
  intros Hw Hh. unfold center_window. do 2 eexists.
  split; [reflexivity|].
  repeat split; Z.to_euclidean_division_equations; lia.
Qed.

Lemma center_window_centred_witness :
  exists x_axis y_axis,
    center_window 500 250 1921 1080 = (500, 250, x_axis, y_axis)
    /\ 0 <= x_axis /\ x_axis + 500 <= 1921
    /\ 0 <= y_axis /\ y_axis + 250 <= 1080
    /\ -1 <= (1921 - (x_axis + 500)) - x_axis <= 1
    /\ -1 <= (1080 - (y_axis + 250)) - y_axis <= 1.
Proof.
  apply (center_window_centred 500 250 1921 1080); lia.
Defined.
